(** * The memory pool of libmicrohttpd ([src/microhttpd/memorypool.c])

    A shallow embedding of the bump arena: the [struct MemoryPool]
    bookkeeping together with the bytes of the block it points to, and the
    operations [MHD_pool_create], [MHD_pool_get_free], [MHD_pool_allocate],
    [MHD_pool_reallocate] and [MHD_pool_reset] as pure functions that return
    the C result together with the pool after the call.

    Target: LP64, so [size_t] has 64 bits and a pointer has 8 bytes.
    [mhd_assert] is compiled out (the default build); the asserted
    conditions are kept as predicates and used as hypotheses. *)

From Stdlib Require Import ZArith Lia Bool String Ascii.
From stdpp Require Import base list.

Local Open Scope Z_scope.

(** ** Machine integers *)

Definition SIZE_MAX : Z := 2 ^ 64 - 1.

(** Unsigned wrap-around of [size_t] arithmetic. *)
Definition size_t (z : Z) : Z := z mod 2 ^ 64.

Definition is_size_t (z : Z) : Prop := 0 <= z <= SIZE_MAX.

Definition sizeof_voidp : Z := 8.

(** [ALIGN_SIZE]: twice the size of a pointer, as GNU libc aligns. *)
Definition ALIGN_SIZE : Z := 2 * sizeof_voidp.

(** [#define ROUND_TO_ALIGN(n) (((n)+(ALIGN_SIZE-1)) / (ALIGN_SIZE) * (ALIGN_SIZE))] *)
Definition ROUND_TO_ALIGN (n : Z) : Z :=
  size_t (size_t (n + (ALIGN_SIZE - 1)) / ALIGN_SIZE * ALIGN_SIZE).

Definition aligned (n : Z) : Prop := n mod ALIGN_SIZE = 0.

(** ** Bytes and blocks of memory *)

Definition byte : Type := Z.

(** Pointers are addresses; the null pointer is address 0. *)
Definition NULL : Z := 0.

(** The bytes of a block that starts at address [base] are a list; the byte
    at address [a] is the element of index [a - base].  An access outside
    the block is undefined in C: here a read gives [None] and a write is
    dropped. *)
Definition load (base : Z) (m : list byte) (a : Z) : option byte :=
  if base <=? a then m !! Z.to_nat (a - base) else None.

Definition within (s n a : Z) : bool := (s <=? a) && (a <? s + n).

Definition memset (base : Z) (m : list byte) (s : Z) (c : byte) (n : Z)
  : list byte :=
  imap (fun i b => if within s n (base + Z.of_nat i) then c else b) m.

(** All source bytes are read from the block as it was before the call, so
    overlapping ranges are copied correctly. *)
Definition memmove (base : Z) (m : list byte) (dst src n : Z) : list byte :=
  imap (fun i b =>
          let a := base + Z.of_nat i in
          if within dst n a then default b (load base m (src + (a - dst)))
          else b) m.

(** [memcpy] is only defined in C for ranges that do not overlap, where it
    agrees with [memmove]. *)
Definition memcpy (base : Z) (m : list byte) (dst src n : Z) : list byte :=
  memmove base m dst src n.

(** A client storing the bytes [bs] through a pointer [a] into the block. *)
Definition store (base : Z) (m : list byte) (a : Z) (bs : list byte)
  : list byte :=
  imap (fun i b =>
          let x := base + Z.of_nat i in
          if within a (Z.of_nat (length bs)) x
          then default b (bs !! Z.to_nat (x - a)) else b) m.

Definition bytes_of_string (s : string) : list byte :=
  (fun c => Z.of_N (N_of_ascii c)) <$> list_ascii_of_string s.

(** ** The pool *)

(** [struct MemoryPool]; [cells] holds the bytes of the block [memory]
    points to. *)
Record MemoryPool : Type := mkPool {
  memory : Z;
  cells : list byte;
  size : Z;
  pos : Z;
  end_ : Z;
  is_mmap : bool
}.

Definition set_pos (p : MemoryPool) (v : Z) : MemoryPool :=
  mkPool (memory p) (cells p) (size p) v (end_ p) (is_mmap p).

Definition set_end (p : MemoryPool) (v : Z) : MemoryPool :=
  mkPool (memory p) (cells p) (size p) (pos p) v (is_mmap p).

Definition set_cells (p : MemoryPool) (m : list byte) : MemoryPool :=
  mkPool (memory p) m (size p) (pos p) (end_ p) (is_mmap p).

(** The byte at address [a], read through the pool. *)
Definition peek (p : MemoryPool) (a : Z) : option byte :=
  load (memory p) (cells p) a.

(** The [n] bytes at address [a]. *)
Definition peek_bytes (p : MemoryPool) (a n : Z) : list byte :=
  take (Z.to_nat n) (drop (Z.to_nat (a - memory p)) (cells p)).

(** The client writes [bs] at address [a]. *)
Definition poke (p : MemoryPool) (a : Z) (bs : list byte) : MemoryPool :=
  set_cells p (store (memory p) (cells p) a bs).

(** *** What the platform gives to [MHD_pool_create] *)

Record block : Type := mkBlock { blk_addr : Z; blk_bytes : list byte }.

Record platform : Type := mkPlatform {
  (** [defined(MAP_ANONYMOUS) || defined(_WIN32)] *)
  have_map_anonymous : bool;
  (** whether [malloc (sizeof (struct MemoryPool))] succeeds *)
  malloc_handle : bool;
  (** [mmap] / [VirtualAlloc]; [None] is [MAP_FAILED] *)
  sys_mmap : Z -> option block;
  (** [malloc]; [None] is [NULL] *)
  sys_malloc : Z -> option block
}.

Definition MHD_pool_create (plat : platform) (max : Z) : option MemoryPool :=
  let max := ROUND_TO_ALIGN max in
  if negb (malloc_handle plat) then None
  else
    let mapped :=
      if have_map_anonymous plat
      then if max <=? 32 * 1024 then None else sys_mmap plat max
      else None in
    match mapped with
    | None =>
        match sys_malloc plat max with
        | None => None
        | Some b => Some (mkPool (blk_addr b) (blk_bytes b) max 0 max false)
        end
    | Some b => Some (mkPool (blk_addr b) (blk_bytes b) max 0 max true)
    end.

Definition MHD_pool_get_free (p : MemoryPool) : Z :=
  size_t (end_ p - pos p).

Definition MHD_pool_allocate (p : MemoryPool) (sz : Z) (from_end : bool)
  : Z * MemoryPool :=
  let asize := ROUND_TO_ALIGN sz in
  if (0 =? asize) && negb (0 =? sz) then (NULL, p)
  else if (size_t (pos p + asize) >? end_ p)
          || (size_t (pos p + asize) <? pos p) then (NULL, p)
  else if from_end then
    let ret := memory p + size_t (end_ p - asize) in
    (ret, set_end p (size_t (end_ p - asize)))
  else
    let ret := memory p + pos p in
    (ret, set_pos p (size_t (pos p + asize))).

Definition MHD_pool_reallocate (p : MemoryPool) (old old_size new_size : Z)
  : Z * MemoryPool :=
  if size_t (new_size + 2 * ALIGN_SIZE) <? new_size then (NULL, p)
  else
    let new_block :=
      let asize := ROUND_TO_ALIGN new_size in
      if asize >? size_t (end_ p - pos p) then (NULL, p)
      else
        let new_blc := memory p + pos p in
        let p1 := set_pos p (size_t (pos p + asize)) in
        if negb (0 =? old_size) then
          let m1 := memcpy (memory p1) (cells p1) new_blc old old_size in
          let m2 := memset (memory p1) m1 old 0 old_size in
          (new_blc, set_cells p1 m2)
        else (new_blc, p1) in
    if negb (0 =? old_size) then
      let old_offset := size_t (old - memory p) in
      if pos p =? ROUND_TO_ALIGN (size_t (old_offset + old_size)) then
        let new_apos := ROUND_TO_ALIGN (size_t (old_offset + new_size)) in
        if new_apos >? end_ p then (NULL, p)
        else
          let p1 := set_pos p new_apos in
          if old_size >? new_size then
            (old, set_cells p1 (memset (memory p1) (cells p1) (old + new_size)
                                  0 (size_t (old_size - new_size))))
          else (old, p1)
      else new_block
    else new_block.

Definition MHD_pool_reset (p : MemoryPool) (keep copy_bytes new_size : Z)
  : Z * MemoryPool :=
  let '(p1, keep1) :=
    if negb (NULL =? keep) && negb (keep =? memory p) then
      ((if negb (0 =? copy_bytes)
        then set_cells p (memmove (memory p) (cells p) (memory p) keep
                            copy_bytes)
        else p), memory p)
    else (p, keep) in
  let p2 := set_end p1 (size p1) in
  let p3 :=
    if size p2 >? copy_bytes then
      set_cells p2 (memset (memory p2) (cells p2) (memory p2 + copy_bytes) 0
                      (size_t (size p2 - copy_bytes)))
    else p2 in
  let p4 :=
    if negb (NULL =? keep1) then set_pos p3 (ROUND_TO_ALIGN new_size)
    else p3 in
  (keep1, p4).

(** ** Well-formed pools *)

(** The cursors are ordered and everything is a multiple of [ALIGN_SIZE]. *)
Definition arena_invariant (p : MemoryPool) : Prop :=
  0 <= pos p /\ pos p <= end_ p /\ end_ p <= size p /\
  aligned (pos p) /\ aligned (end_ p) /\ aligned (size p).

(** An active pool: the invariant holds, the fields are [size_t] values and
    [memory] is a non-null block of [size] bytes inside the address space. *)
Definition active (p : MemoryPool) : Prop :=
  arena_invariant p /\ size p <= SIZE_MAX /\ 0 < memory p /\
  memory p + size p <= SIZE_MAX /\ Z.of_nat (length (cells p)) = size p.

(** No block of memory has more than [PTRDIFF_MAX] bytes: [malloc] and
    [mmap] refuse a larger request, so no pool has a larger capacity. *)
Definition PTRDIFF_MAX : Z := 2 ^ 63 - 1.

(** The conditions [MHD_pool_reallocate] asserts about its block. *)
Definition reallocate_asserts (p : MemoryPool) (old old_size : Z) : Prop :=
  (old <> NULL \/ old_size = 0) /\
  (old = NULL \/ memory p <= old) /\
  (old = NULL \/ memory p + size p >= old + old_size) /\
  (old = NULL \/ memory p + pos p > old).

(** The conditions [MHD_pool_reset] asserts about the block to keep. *)
Definition reset_asserts (p : MemoryPool) (keep copy_bytes : Z) : Prop :=
  (keep <> NULL \/ copy_bytes = 0) /\
  (keep = NULL \/ memory p <= keep) /\
  (keep = NULL \/ memory p + size p >= keep + copy_bytes).

(** ** A platform and a pool to compute with

    A platform whose [malloc] hands out zeroed blocks at address 4096 and
    whose [mmap] maps zeroed pages at address 65536. *)
Definition demo_platform : platform :=
  mkPlatform true true
    (fun n => Some (mkBlock 65536 (replicate (Z.to_nat n) 0)))
    (fun n => Some (mkBlock 4096 (replicate (Z.to_nat n) 0))).

(** The pool that [MHD_pool_create demo_platform 1024] returns. *)
Definition demo_pool : MemoryPool :=
  mkPool 4096 (replicate 1024%nat 0) 1024 0 1024 false.


(** ** Releasing a pool

    Which primitives [MHD_pool_create] and [MHD_pool_destroy] use is chosen
    by the preprocessor. *)
Inductive build : Type :=
  | BUILD_MMAP         (** [MAP_ANONYMOUS] defined, not [_WIN32] *)
  | BUILD_WIN32        (** [_WIN32] defined *)
  | BUILD_MALLOC_ONLY. (** neither *)

(** [defined(MAP_ANONYMOUS) || defined(_WIN32)] for a build. *)
Definition build_maps (b : build) : bool :=
  match b with BUILD_MALLOC_ONLY => false | _ => true end.

(** The calls [MHD_pool_destroy] makes, in order. *)
Inductive release : Type :=
  | call_free (a : Z)          (** [free (pool->memory)] *)
  | call_munmap (a len : Z)    (** [munmap (pool->memory, pool->size)] *)
  | call_VirtualFree (a : Z)   (** [VirtualFree (pool->memory, 0, MEM_RELEASE)] *)
  | call_abort                 (** [abort ()], which does not return *)
  | call_free_handle.          (** [free (pool)] *)

(** [MHD_pool_destroy]; [None] is the null handle. *)
Definition MHD_pool_destroy (b : build) (pool : option MemoryPool)
  : list release :=
  match pool with
  | None => []
  | Some p =>
      if negb (is_mmap p) then [call_free (memory p); call_free_handle]
      else
        match b with
        | BUILD_MMAP => [call_munmap (memory p) (size p); call_free_handle]
        | BUILD_WIN32 => [call_VirtualFree (memory p); call_free_handle]
        | BUILD_MALLOC_ONLY => [call_abort]
        end
  end.

(** * Basic authentication ([src/microhttpd/basicauth.c])

    The functions of this file call into parts of the library whose source
    is not at hand.  Those parts are the fields of [externs]: each field
    stands for one outside function or constant and gives what it returns.
    Objects of the library that are only passed on (the connection, the
    response) are pointers, that is addresses. *)

(** [enum MHD_Result]. *)
Inductive MHD_Result : Type := MHD_NO | MHD_YES.

(** [struct MHD_RqBAuth]: the member [token68] is a string with its
    length; [None] is a null [str]. *)
Record MHD_RqBAuth : Type := mkRqBAuth {
  token68_str : option (list byte);
  token68_len : Z
}.

(** [struct MHD_AuthRqHeader], as far as this file reads it:
    [params.bauth] is a pointer, [None] when null. *)
Record MHD_AuthRqHeader : Type := mkAuthRqHeader {
  auth_type : Z;
  params_bauth : option MHD_RqBAuth
}.

Record externs : Type := mkExterns {
  (** the enumerator [MHD_AUTHTYPE_BASIC] *)
  MHD_AUTHTYPE_BASIC : Z;
  (** [MHD_get_auth_rq_params_ (connection)]; [None] is null *)
  MHD_get_auth_rq_params_ : Z -> option MHD_AuthRqHeader;
  (** [BASE64Decode (src, in_len, &out_len)]: the decoded bytes, whose
      number is stored in [out_len]; [None] is null *)
  BASE64Decode : list byte -> Z -> option (list byte);
  (** [malloc (n)]: the bytes of the new block, with whatever they hold;
      [None] is null *)
  malloc : Z -> option (list byte);
  (** [MHD_str_quote (unquoted, unquoted_len, result, buf_size)]: the
      bytes written to [result]; their number is the value returned *)
  MHD_str_quote : list byte -> Z -> list byte;
  (** [MHD_HTTP_HEADER_WWW_AUTHENTICATE] *)
  MHD_HTTP_HEADER_WWW_AUTHENTICATE : list byte;
  (** [MHD_HTTP_UNAUTHORIZED] *)
  MHD_HTTP_UNAUTHORIZED : Z;
  (** [MHD_add_response_header (response, header, content)] *)
  MHD_add_response_header : Z -> list byte -> list byte -> MHD_Result;
  (** [MHD_queue_response (connection, status_code, response)] *)
  MHD_queue_response : Z -> Z -> Z -> MHD_Result
}.

(** The index of the first byte equal to [c]. *)
Fixpoint find_byte (c : byte) (s : list byte) : option nat :=
  match s with
  | [] => None
  | b :: t => if b =? c then Some 0%nat else S <$> find_byte c t
  end.

(** [memchr (s, c, n)]: the offset of the first [c] among the first [n]
    bytes of [s]; [None] is null. *)
Definition memchr (s : list byte) (c : byte) (n : Z) : option Z :=
  Z.of_nat <$> find_byte c (take (Z.to_nat n) s).

(** The bytes of the C string that starts a buffer: those before the first
    zero byte. *)
Fixpoint c_string (s : list byte) : list byte :=
  match s with
  | [] => []
  | b :: t => if b =? 0 then [] else b :: c_string t
  end.

(** [strlen]. *)
Definition strlen (s : list byte) : Z := Z.of_nat (length (c_string s)).

(** [static get_rq_bauth_params (connection)]. *)
Definition get_rq_bauth_params (x : externs) (connection : Z)
  : option MHD_RqBAuth :=
  match MHD_get_auth_rq_params_ x connection with
  | None => None
  | Some rq_params =>
      if negb (MHD_AUTHTYPE_BASIC x =? auth_type rq_params) then None
      else params_bauth rq_params
  end.

(** [struct MHD_BasicAuthInfo] together with the bytes that follow it in
    the same allocation ([text]); [username] and [password] point into
    these bytes and are given as offsets from [(char * ) (ret + 1)];
    [None] is a null [password]. *)
Record MHD_BasicAuthInfo : Type := mkBasicAuthInfo {
  text : list byte;
  username : Z;
  username_len : Z;
  password : option Z;
  password_len : Z
}.

(** Two pointers and two [size_t]. *)
Definition sizeof_MHD_BasicAuthInfo : Z := 4 * sizeof_voidp.

(** [MHD_basic_auth_get_username_password3]; beside the result, the number
    of times [free (decoded)] is called. *)
Definition MHD_basic_auth_get_username_password3 (x : externs)
    (connection : Z) : option MHD_BasicAuthInfo * nat :=
  match get_rq_bauth_params x connection with
  | None => (None, 0%nat)
  | Some params =>
      match token68_str params with
      | None => (None, 0%nat)
      | Some str =>
          if 0 =? token68_len params then (None, 0%nat)
          else
            match BASE64Decode x str (token68_len params) with
            | None => (None, 0%nat)
            | Some decoded =>
                let decoded_len := Z.of_nat (length decoded) in
                if 0 =? decoded_len then (None, 1%nat)
                else
                  let colon := memchr decoded 58 decoded_len in
                  let username_len :=
                    match colon with
                    | Some c => c
                    | None => decoded_len
                    end in
                  let password_pos := size_t (username_len + 1) in
                  let password_len := size_t (decoded_len - password_pos) in
                  match malloc x (size_t (size_t (sizeof_MHD_BasicAuthInfo
                                                  + decoded_len) + 1)) with
                  | None => (None, 1%nat)
                  | Some ret =>
                      let t0 := drop (Z.to_nat sizeof_MHD_BasicAuthInfo) ret in
                      let t1 := store 0 t0 0 decoded in
                      let t2 := store 0 t1 username_len [0] in
                      match colon with
                      | Some _ =>
                          let t3 :=
                            store 0 t2 (password_pos + password_len) [0] in
                          (Some (mkBasicAuthInfo t3 0 username_len
                                   (Some password_pos) password_len), 1%nat)
                      | None =>
                          (Some (mkBasicAuthInfo t2 0 username_len None 0),
                           1%nat)
                      end
                  end
            end
      end
  end.

(** What [MHD_basic_auth_get_username_password] hands to its caller:
    [user] is the block returned ([None] is null); [stored] is what was
    assigned to [*password], [None] when nothing was assigned and
    [Some None] when null was; [decode_frees] counts the calls of
    [free (decode)]. *)
Record user_password : Type := mkUserPassword {
  user : option (list byte);
  stored : option (option (list byte));
  decode_frees : nat
}.

(** [MHD_basic_auth_get_username_password]; [want_password] tells whether
    the argument [password] is a non-null pointer. *)
Definition MHD_basic_auth_get_username_password (x : externs)
    (connection : Z) (want_password : bool) : user_password :=
  match get_rq_bauth_params x connection with
  | None => mkUserPassword None None 0
  | Some params =>
      match token68_str params with
      | None => mkUserPassword None None 0
      | Some str =>
          if 0 =? token68_len params then mkUserPassword None None 0
          else
            match BASE64Decode x str (token68_len params) with
            | None => mkUserPassword None None 0
            | Some decode =>
                let decode_len := Z.of_nat (length decode) in
                if 0 =? decode_len then mkUserPassword None None 1
                else
                  match memchr decode 58 decode_len with
                  | Some user_len =>
                      let user := store 0 decode user_len [0] in
                      if negb want_password
                      then mkUserPassword (Some user) None 0
                      else
                        let password_len :=
                          size_t (size_t (decode_len - user_len) - 1) in
                        match malloc x (size_t (password_len + 1)) with
                        | Some blk =>
                            let b1 :=
                              if negb (0 =? password_len)
                              then store 0 blk 0
                                     (take (Z.to_nat password_len)
                                        (drop (Z.to_nat (user_len + 1)) user))
                              else blk in
                            let b2 := store 0 b1 password_len [0] in
                            mkUserPassword (Some user) (Some (Some b2)) 0
                        | None => mkUserPassword None (Some None) 1
                        end
                  | None => mkUserPassword None None 1
                  end
            end
      end
  end.

(** The calls [MHD_queue_basic_auth_fail_response3] makes on the response
    and the connection. *)
Inductive response_call : Type :=
  | call_add_response_header (response : Z) (header content : list byte)
  | call_queue_response (connection status_code response : Z).

(** The literals [prefix] (Basic realm= and a double quote) and
    [suff_charset] (a double quote, then , charset= with UTF-8 between
    double quotes), without the final zero. *)
Definition prefix : list byte :=
  bytes_of_string "Basic realm=" ++ [34].

Definition suff_charset : list byte :=
  [34] ++ bytes_of_string ", charset=" ++ [34] ++ bytes_of_string "UTF-8"
  ++ [34].

(** [MHD_STATICSTR_LEN_]: the length of a string literal. *)
Definition MHD_STATICSTR_LEN_ (s : list byte) : Z := Z.of_nat (length s).

(** [MHD_queue_basic_auth_fail_response3]; [realm] holds the bytes at the
    pointer [realm].  Beside the result, the calls made, in order. *)
Definition MHD_queue_basic_auth_fail_response3 (x : externs)
    (connection : Z) (realm : list byte) (prefer_utf8 : Z) (response : Z)
  : MHD_Result * list response_call :=
  let prefix_len := MHD_STATICSTR_LEN_ prefix in
  let suff_simple_len := MHD_STATICSTR_LEN_ [34] in
  let suff_charset_len := MHD_STATICSTR_LEN_ suff_charset in
  if NULL =? response then (MHD_NO, [])
  else
    let suffix_len :=
      if 0 =? prefer_utf8 then suff_simple_len else suff_charset_len in
    let realm_len := strlen realm in
    let h_maxlen :=
      size_t (size_t (prefix_len + size_t (realm_len * 2)) + suffix_len) in
    match malloc x (size_t (h_maxlen + 1)) with
    | None => (MHD_NO, [])
    | Some blk =>
        let h1 := store 0 blk 0 prefix in
        let pos := prefix_len in
        let quoted :=
          MHD_str_quote x (take (Z.to_nat realm_len) realm)
            (size_t (size_t (h_maxlen - prefix_len) - suffix_len)) in
        let realm_quoted_len := Z.of_nat (length quoted) in
        let h2 := store 0 h1 pos quoted in
        let pos := size_t (pos + realm_quoted_len) in
        let h3 :=
          if 0 =? prefer_utf8
          then store 0 (store 0 h2 pos [34]) (size_t (pos + 1)) [0]
          else store 0 h2 pos (suff_charset ++ [0]) in
        let content := c_string h3 in
        let header := MHD_HTTP_HEADER_WWW_AUTHENTICATE x in
        match MHD_add_response_header x response header content with
        | MHD_NO => (MHD_NO, [call_add_response_header response header content])
        | _ =>
            (MHD_queue_response x connection (MHD_HTTP_UNAUTHORIZED x) response,
             [call_add_response_header response header content;
              call_queue_response connection (MHD_HTTP_UNAUTHORIZED x)
                response])
        end
    end.

(** [MHD_queue_basic_auth_fail_response]. *)
Definition MHD_queue_basic_auth_fail_response (x : externs)
    (connection : Z) (realm : list byte) (response : Z)
  : MHD_Result * list response_call :=
  MHD_queue_basic_auth_fail_response3 x connection realm 0 response.

(** The block [BASE64Decode] returns for the token of the request, when
    the two functions above get as far as calling it: both start with the
    same tests. *)
Definition decoded_token (x : externs) (connection : Z)
  : option (list byte) :=
  match get_rq_bauth_params x connection with
  | None => None
  | Some params =>
      match token68_str params with
      | None => None
      | Some str =>
          if 0 =? token68_len params then None
          else BASE64Decode x str (token68_len params)
      end
  end.

(** Externals to compute with: every request carries the token "dTpw",
    [BASE64Decode] gives "u:p" for it and "nocolon" for anything else,
    blocks come zeroed, quoting copies, and the response calls succeed. *)
Definition demo_externs : externs :=
  mkExterns 1
    (fun _ => Some (mkAuthRqHeader 1
                      (Some (mkRqBAuth (Some (bytes_of_string "dTpw")) 4))))
    (fun s _ => if bool_decide (s = bytes_of_string "dTpw")
                then Some (bytes_of_string "u:p")
                else Some (bytes_of_string "nocolon"))
    (fun n => Some (replicate (Z.to_nat n) 0))
    (fun s _ => s)
    (bytes_of_string "WWW-Authenticate")
    401
    (fun _ _ _ => MHD_YES)
    (fun _ _ _ => MHD_YES).
(** ** Arithmetic of [size_t] and of rounding *)

Ltac unfold_arith :=
  unfold is_size_t, aligned, ROUND_TO_ALIGN, size_t, ALIGN_SIZE, sizeof_voidp,
    SIZE_MAX, NULL in *;
  change (2 * 8) with 16 in *;
  change (2 ^ 64) with 18446744073709551616 in *.

Ltac arith := unfold_arith; Z.div_mod_to_equations; lia.

Lemma size_t_small z : is_size_t z -> size_t z = z.
Proof. intros H. arith. Qed.

Lemma size_t_is_size_t z : is_size_t (size_t z).
Proof. arith. Qed.

Lemma ROUND_is_size_t n : is_size_t (ROUND_TO_ALIGN n).
Proof. arith. Qed.

Lemma ROUND_aligned n : aligned (ROUND_TO_ALIGN n).
Proof. arith. Qed.

(** Without wrap-around, rounding gives the least multiple of [ALIGN_SIZE]
    that is not below [n]. *)
Lemma ROUND_no_wrap n :
  0 <= n -> n + (ALIGN_SIZE - 1) <= SIZE_MAX ->
  n <= ROUND_TO_ALIGN n < n + ALIGN_SIZE.
Proof. intros H1 H2. arith. Qed.

(** Rounding wraps to 0 exactly on the last [ALIGN_SIZE - 1] sizes. *)
Lemma ROUND_wraps n :
  is_size_t n -> (ROUND_TO_ALIGN n = 0 /\ n <> 0 <-> SIZE_MAX - (ALIGN_SIZE - 1) < n).
Proof. intros H. arith. Qed.

Lemma aligned_0 : aligned 0.
Proof. reflexivity. Qed.

Lemma aligned_add a b : aligned a -> aligned b -> aligned (a + b).
Proof. intros Ha Hb. arith. Qed.

Lemma aligned_sub a b : aligned a -> aligned b -> aligned (a - b).
Proof. intros Ha Hb. arith. Qed.

(** ** Reading a block after it was written *)

Lemma within_true s n a : within s n a = true <-> s <= a < s + n.
Proof. unfold within. rewrite andb_true_iff, Z.leb_le, Z.ltb_lt. tauto. Qed.

Lemma within_false s n a : within s n a = false <-> ~ (s <= a < s + n).
Proof. rewrite <- within_true. destruct (within s n a); intuition congruence. Qed.

Lemma load_inside base (m : list byte) a :
  base <= a < base + Z.of_nat (length m) -> is_Some (load base m a).
Proof.
  intros H. unfold load.
  destruct (Z.leb_spec base a); [|lia].
  apply lookup_lt_is_Some_2. lia.
Qed.

Lemma load_outside base (m : list byte) a :
  ~ (base <= a < base + Z.of_nat (length m)) -> load base m a = None.
Proof.
  intros H. unfold load.
  destruct (Z.leb_spec base a); [|reflexivity].
  apply lookup_ge_None_2. lia.
Qed.

Lemma load_imap (f : Z -> byte -> byte) base (m : list byte) a :
  load base (imap (fun i b => f (base + Z.of_nat i) b) m) a
  = f a <$> load base m a.
Proof.
  unfold load. destruct (Z.leb_spec base a) as [H|H]; [|reflexivity].
  rewrite list_lookup_imap.
  replace (base + Z.of_nat (Z.to_nat (a - base))) with a by lia.
  reflexivity.
Qed.

Lemma length_memset base m s c n : length (memset base m s c n) = length m.
Proof. apply length_imap. Qed.

Lemma length_memmove base m dst src n :
  length (memmove base m dst src n) = length m.
Proof. apply length_imap. Qed.

Lemma length_store base m a bs : length (store base m a bs) = length m.
Proof. apply length_imap. Qed.

Lemma load_memset base m s c n a :
  load base (memset base m s c n) a
  = (fun b => if within s n a then c else b) <$> load base m a.
Proof.
  unfold memset.
  apply (load_imap (fun x b => if within s n x then c else b)).
Qed.

Lemma load_memmove base m dst src n a :
  load base (memmove base m dst src n) a
  = (fun b => if within dst n a
              then default b (load base m (src + (a - dst))) else b)
      <$> load base m a.
Proof.
  unfold memmove.
  apply (load_imap (fun x b => if within dst n x
                               then default b (load base m (src + (x - dst)))
                               else b)).
Qed.

Lemma load_store base m a bs x :
  load base (store base m a bs) x
  = (fun b => if within a (Z.of_nat (length bs)) x
              then default b (bs !! Z.to_nat (x - a)) else b)
      <$> load base m x.
Proof.
  unfold store.
  apply (load_imap (fun y b => if within a (Z.of_nat (length bs)) y
                               then default b (bs !! Z.to_nat (y - a))
                               else b)).
Qed.

(** A byte inside the range that [memset] fills. *)
Lemma load_memset_in base m s c n a :
  s <= a < s + n -> base <= a < base + Z.of_nat (length m) ->
  load base (memset base m s c n) a = Some c.
Proof.
  intros Hin Hblk. rewrite load_memset.
  destruct (load_inside base m a Hblk) as [b ->]. simpl.
  apply within_true in Hin. rewrite Hin. reflexivity.
Qed.

(** A byte that [memset] does not touch. *)
Lemma load_memset_out base m s c n a :
  ~ (s <= a < s + n) -> load base (memset base m s c n) a = load base m a.
Proof.
  intros Hout. rewrite load_memset.
  apply within_false in Hout. rewrite Hout.
  destruct (load base m a); reflexivity.
Qed.

(** A destination byte of [memmove] holds the source byte of before. *)
Lemma load_memmove_in base m dst src n a :
  dst <= a < dst + n -> base <= a < base + Z.of_nat (length m) ->
  base <= src + (a - dst) < base + Z.of_nat (length m) ->
  load base (memmove base m dst src n) a = load base m (src + (a - dst)).
Proof.
  intros Hin Hblk Hsrc. rewrite load_memmove.
  destruct (load_inside base m a Hblk) as [b ->].
  destruct (load_inside base m _ Hsrc) as [b' ->]. simpl.
  apply within_true in Hin. rewrite Hin. reflexivity.
Qed.

Lemma load_memmove_out base m dst src n a :
  ~ (dst <= a < dst + n) ->
  load base (memmove base m dst src n) a = load base m a.
Proof.
  intros Hout. rewrite load_memmove.
  apply within_false in Hout. rewrite Hout.
  destruct (load base m a); reflexivity.
Qed.

Lemma load_store_in base m a bs x b :
  base <= x < base + Z.of_nat (length m) ->
  a <= x -> bs !! Z.to_nat (x - a) = Some b ->
  load base (store base m a bs) x = Some b.
Proof.
  intros Hblk Hax Hb. rewrite load_store.
  destruct (load_inside base m x Hblk) as [b0 ->]. simpl.
  assert (Hin : within a (Z.of_nat (length bs)) x = true).
  { apply within_true. apply lookup_lt_Some in Hb. lia. }
  rewrite Hin, Hb. reflexivity.
Qed.

Lemma load_store_out base m a bs x :
  ~ (a <= x < a + Z.of_nat (length bs)) ->
  load base (store base m a bs) x = load base m x.
Proof.
  intros Hout. rewrite load_store.
  apply within_false in Hout. rewrite Hout.
  destruct (load base m x); reflexivity.
Qed.

(** ** The operations, one by one *)

Ltac case_cmp :=
  match goal with
  | |- context [Z.eqb ?a ?b] => destruct (Z.eqb_spec a b)
  | |- context [Z.ltb ?a ?b] => destruct (Z.ltb_spec a b)
  | |- context [Z.leb ?a ?b] => destruct (Z.leb_spec a b)
  end.

(** Name every rounded size, keeping that it is an aligned [size_t]. *)
Ltac name_rounds :=
  repeat match goal with
    | |- context [ROUND_TO_ALIGN ?n] =>
        let r := fresh "r" in
        pose proof (ROUND_is_size_t n);
        pose proof (ROUND_aligned n);
        set (r := ROUND_TO_ALIGN n) in *; clearbody r
    end.

Ltac unfold_pool :=
  unfold active, arena_invariant, reallocate_asserts, reset_asserts in *.

Ltac pool_arith := unfold_pool; simpl in *; name_rounds; arith.

Lemma create_fresh plat max p :
  MHD_pool_create plat max = Some p ->
  pos p = 0 /\ end_ p = ROUND_TO_ALIGN max /\ size p = ROUND_TO_ALIGN max.
Proof.
  unfold MHD_pool_create. intros H.
  destruct (malloc_handle plat); simpl in H; [|discriminate].
  destruct (if have_map_anonymous plat then _ else _) as [b|].
  - injection H as <-. auto.
  - destruct (sys_malloc plat _) as [b|]; [|discriminate].
    injection H as <-. auto.
Qed.

Lemma create_invariant plat max p :
  MHD_pool_create plat max = Some p -> arena_invariant p /\ size p <= SIZE_MAX.
Proof.
  intros H. destruct (create_fresh _ _ _ H) as (Hp & He & Hs).
  unfold arena_invariant. rewrite Hp, He, Hs.
  pose proof (ROUND_is_size_t max) as Hr. pose proof (ROUND_aligned max).
  unfold is_size_t in Hr.
  repeat split; try lia; try assumption; reflexivity.
Qed.

Lemma get_free_exact p :
  arena_invariant p -> size p <= SIZE_MAX ->
  MHD_pool_get_free p = end_ p - pos p.
Proof. intros Hi Hs. unfold MHD_pool_get_free. pool_arith. Qed.

(** [MHD_pool_allocate] with room for the rounded size. *)
Lemma allocate_ok p sz from_end :
  arena_invariant p -> size p <= SIZE_MAX -> is_size_t sz ->
  sz = 0 \/ ROUND_TO_ALIGN sz <> 0 ->
  ROUND_TO_ALIGN sz <= end_ p - pos p ->
  MHD_pool_allocate p sz from_end =
    if from_end
    then (memory p + (end_ p - ROUND_TO_ALIGN sz),
          set_end p (end_ p - ROUND_TO_ALIGN sz))
    else (memory p + pos p, set_pos p (pos p + ROUND_TO_ALIGN sz)).
Proof.
  intros Hi Hs Hsz Hnz Hroom. unfold MHD_pool_allocate.
  rewrite Z.gtb_ltb.
  assert (H1 : size_t (pos p + ROUND_TO_ALIGN sz) = pos p + ROUND_TO_ALIGN sz)
    by pool_arith.
  assert (H2 : size_t (end_ p - ROUND_TO_ALIGN sz) = end_ p - ROUND_TO_ALIGN sz)
    by pool_arith.
  rewrite H1, H2.
  repeat case_cmp; simpl; try reflexivity; exfalso; pool_arith.
Qed.

(** [MHD_pool_allocate] refuses a size whose rounding wraps to 0 and a size
    for which there is no room. *)
Lemma allocate_refused p sz from_end :
  arena_invariant p -> size p <= SIZE_MAX ->
  (ROUND_TO_ALIGN sz = 0 /\ sz <> 0) \/ ROUND_TO_ALIGN sz > end_ p - pos p ->
  MHD_pool_allocate p sz from_end = (NULL, p).
Proof.
  intros Hi Hs Hno. unfold MHD_pool_allocate.
  rewrite Z.gtb_ltb.
  repeat case_cmp; simpl; try reflexivity; exfalso; pool_arith.
Qed.

(** A null result of [MHD_pool_allocate] comes from one of the early
    returns, before anything is assigned. *)
Lemma allocate_null_unchanged p sz from_end :
  0 < memory p -> 0 <= pos p ->
  fst (MHD_pool_allocate p sz from_end) = NULL ->
  snd (MHD_pool_allocate p sz from_end) = p.
Proof.
  intros Hm Hp. unfold MHD_pool_allocate.
  rewrite Z.gtb_ltb.
  repeat case_cmp; simpl; try reflexivity; destruct from_end; simpl;
    intros Hnull; exfalso; pool_arith.
Qed.

Lemma allocate_cells p sz from_end :
  cells (snd (MHD_pool_allocate p sz from_end)) = cells p.
Proof.
  unfold MHD_pool_allocate.
  destruct (_ && _); [reflexivity|].
  destruct (_ || _); [reflexivity|].
  destruct from_end; reflexivity.
Qed.

Lemma allocate_invariant p sz from_end :
  arena_invariant p -> size p <= SIZE_MAX ->
  arena_invariant (snd (MHD_pool_allocate p sz from_end)).
Proof.
  intros Hi Hs. unfold MHD_pool_allocate.
  rewrite Z.gtb_ltb.
  repeat case_cmp; simpl; try assumption; destruct from_end; simpl;
    pool_arith.
Qed.

(** The guard at the head of [MHD_pool_reallocate]. *)
Lemma reallocate_guard p old old_size new_size :
  is_size_t new_size -> SIZE_MAX < new_size + 2 * ALIGN_SIZE ->
  MHD_pool_reallocate p old old_size new_size = (NULL, p).
Proof.
  intros Hn Hw. unfold MHD_pool_reallocate.
  destruct (Z.ltb_spec (size_t (new_size + 2 * ALIGN_SIZE)) new_size);
    [reflexivity|].
  exfalso. arith.
Qed.

Lemma reallocate_guard_passed new_size :
  is_size_t new_size -> new_size + 2 * ALIGN_SIZE <= SIZE_MAX ->
  (size_t (new_size + 2 * ALIGN_SIZE) <? new_size) = false.
Proof. intros Hn Hw. apply Z.ltb_ge. arith. Qed.

(** The branch for the block that was allocated last. *)
Lemma reallocate_last p old old_size new_size :
  is_size_t new_size -> new_size + 2 * ALIGN_SIZE <= SIZE_MAX ->
  old_size <> 0 ->
  pos p = ROUND_TO_ALIGN (size_t (size_t (old - memory p) + old_size)) ->
  MHD_pool_reallocate p old old_size new_size =
    let new_apos :=
      ROUND_TO_ALIGN (size_t (size_t (old - memory p) + new_size)) in
    if new_apos >? end_ p then (NULL, p)
    else if old_size >? new_size
         then (old, set_cells (set_pos p new_apos)
                      (memset (memory p) (cells p) (old + new_size) 0
                         (size_t (old_size - new_size))))
         else (old, set_pos p new_apos).
Proof.
  intros Hn Hw Hos Hlast. unfold MHD_pool_reallocate.
  rewrite reallocate_guard_passed by assumption.
  destruct (Z.eqb_spec 0 old_size) as [E|_]; [congruence|]. simpl negb. cbv iota.
  rewrite <- Hlast, Z.eqb_refl. reflexivity.
Qed.

(** The branch for any other block: a new block at the head. *)
Lemma reallocate_moves p old old_size new_size :
  is_size_t new_size -> new_size + 2 * ALIGN_SIZE <= SIZE_MAX ->
  old_size <> 0 ->
  pos p <> ROUND_TO_ALIGN (size_t (size_t (old - memory p) + old_size)) ->
  MHD_pool_reallocate p old old_size new_size =
    let asize := ROUND_TO_ALIGN new_size in
    if asize >? size_t (end_ p - pos p) then (NULL, p)
    else (memory p + pos p,
          set_cells (set_pos p (size_t (pos p + asize)))
            (memset (memory p)
               (memcpy (memory p) (cells p) (memory p + pos p) old old_size)
               old 0 old_size)).
Proof.
  intros Hn Hw Hos Hlast. unfold MHD_pool_reallocate.
  rewrite reallocate_guard_passed by assumption.
  destruct (Z.eqb_spec 0 old_size) as [E|_]; [congruence|]. simpl negb. cbv iota.
  destruct (Z.eqb_spec (pos p)
              (ROUND_TO_ALIGN (size_t (size_t (old - memory p) + old_size))));
    [contradiction|].
  reflexivity.
Qed.

(** With [old_size = 0] nothing is relocated. *)
Lemma reallocate_nothing p old new_size :
  is_size_t new_size -> new_size + 2 * ALIGN_SIZE <= SIZE_MAX ->
  MHD_pool_reallocate p old 0 new_size =
    let asize := ROUND_TO_ALIGN new_size in
    if asize >? size_t (end_ p - pos p) then (NULL, p)
    else (memory p + pos p, set_pos p (size_t (pos p + asize))).
Proof.
  intros Hn Hw. unfold MHD_pool_reallocate.
  rewrite reallocate_guard_passed by assumption.
  reflexivity.
Qed.

(** A null result of [MHD_pool_reallocate] comes from one of the three
    early returns. *)
Lemma reallocate_null_unchanged p old old_size new_size :
  0 < memory p -> 0 <= pos p -> old <> NULL \/ old_size = 0 ->
  fst (MHD_pool_reallocate p old old_size new_size) = NULL ->
  snd (MHD_pool_reallocate p old old_size new_size) = p.
Proof.
  intros Hm Hp Hold. unfold MHD_pool_reallocate.
  destruct (_ <? new_size); [reflexivity|].
  destruct (_ >? size_t _).
  - destruct (Z.eqb_spec 0 old_size); simpl negb; cbv iota; [reflexivity|].
    destruct (_ =? _); [|reflexivity].
    destruct (_ >? end_ p); [reflexivity|].
    destruct (_ >? _); simpl; intros Hnull; exfalso; unfold NULL in *; lia.
  - destruct (Z.eqb_spec 0 old_size); simpl negb; cbv iota.
    + simpl. intros Hnull. exfalso. unfold NULL in *. lia.
    + destruct (_ =? _).
      * destruct (_ >? end_ p); [reflexivity|].
        destruct (_ >? _); simpl; intros Hnull; exfalso; unfold NULL in *; lia.
      * simpl. intros Hnull. exfalso. unfold NULL in *. lia.
Qed.

Lemma reallocate_invariant p old old_size new_size :
  arena_invariant p -> size p <= SIZE_MAX ->
  arena_invariant (snd (MHD_pool_reallocate p old old_size new_size)).
Proof.
  intros Hi Hs. unfold MHD_pool_reallocate.
  destruct (_ <? new_size); [assumption|].
  cbv zeta. rewrite !Z.gtb_ltb.
  assert (Hnew : forall b : bool,
             arena_invariant
               (snd (if size_t (end_ p - pos p) <? ROUND_TO_ALIGN new_size
                     then (NULL, p)
                     else if b
                          then (memory p + pos p,
                                set_cells
                                  (set_pos p
                                     (size_t (pos p + ROUND_TO_ALIGN new_size)))
                                  (memset (memory p)
                                     (memcpy (memory p) (cells p)
                                        (memory p + pos p) old old_size)
                                     old 0 old_size))
                          else (memory p + pos p,
                                set_pos p
                                  (size_t (pos p + ROUND_TO_ALIGN new_size)))))).
  { intros b. case_cmp; simpl; [assumption|]. destruct b; simpl; pool_arith. }
  destruct (negb (0 =? old_size)).
  - destruct (_ =? _).
    + clear Hnew. case_cmp; [assumption|].
      destruct (new_size <? old_size); simpl; pool_arith.
    + apply (Hnew true).
  - apply (Hnew false).
Qed.

(** [MHD_pool_reset] without a block to keep: [pos] is not assigned. *)
Lemma reset_null p copy_bytes new_size :
  let r := MHD_pool_reset p NULL copy_bytes new_size in
  fst r = NULL /\ pos (snd r) = pos p /\ end_ (snd r) = size p /\
  size (snd r) = size p /\ memory (snd r) = memory p.
Proof.
  unfold MHD_pool_reset. simpl.
  destruct (size p >? copy_bytes); simpl; auto.
Qed.

(** [MHD_pool_reset] with a block to keep: the cursors and the result. *)
Lemma reset_keep p keep copy_bytes new_size :
  memory p <> NULL -> keep <> NULL ->
  let r := MHD_pool_reset p keep copy_bytes new_size in
  fst r = memory p /\ pos (snd r) = ROUND_TO_ALIGN new_size /\
  end_ (snd r) = size p /\ size (snd r) = size p /\
  memory (snd r) = memory p.
Proof.
  intros Hm Hk. unfold MHD_pool_reset.
  assert (E1 : (NULL =? keep) = false) by (apply Z.eqb_neq; congruence).
  assert (E2 : (NULL =? memory p) = false) by (apply Z.eqb_neq; congruence).
  rewrite E1.
  destruct (Z.eqb_spec keep (memory p)); cbn [negb andb]; cbv beta iota zeta;
    rewrite ?E1, ?E2; cbn [negb]; cbv beta iota;
    destruct (size _ >? copy_bytes); try destruct (0 =? copy_bytes);
    simpl; auto.
Qed.

(** The bytes of the block after [MHD_pool_reset]. *)
Lemma reset_cells p keep copy_bytes new_size :
  cells (snd (MHD_pool_reset p keep copy_bytes new_size)) =
    let m1 :=
      if negb (NULL =? keep) && negb (keep =? memory p)
         && negb (0 =? copy_bytes)
      then memmove (memory p) (cells p) (memory p) keep copy_bytes
      else cells p in
    if size p >? copy_bytes
    then memset (memory p) m1 (memory p + copy_bytes) 0
           (size_t (size p - copy_bytes))
    else m1.
Proof.
  unfold MHD_pool_reset.
  destruct (negb (NULL =? keep)); destruct (negb (keep =? memory p));
    destruct (negb (0 =? copy_bytes)); simpl;
    destruct (size p >? copy_bytes); simpl;
    repeat match goal with |- context [if ?b then _ else _] =>
                             destruct b; simpl end;
    reflexivity.
Qed.

Lemma reset_keep_bytes p keep copy_bytes new_size :
  active p -> memory p <= keep -> keep + copy_bytes <= memory p + size p ->
  0 <= copy_bytes ->
  let p' := snd (MHD_pool_reset p keep copy_bytes new_size) in
  (forall i, 0 <= i < copy_bytes ->
             peek p' (memory p + i) = peek p (keep + i)) /\
  (forall i, copy_bytes <= i < size p -> peek p' (memory p + i) = Some 0).
Proof.
  intros Ha Hlo Hhi Hcb p'.
  assert (Hmem : memory p' = memory p).
  { apply (reset_keep p keep copy_bytes new_size); unfold_pool; unfold NULL; lia. }
  assert (Hlen : Z.of_nat (length (cells p)) = size p) by (unfold_pool; tauto).
  assert (Hs : is_size_t (size p)) by (unfold_pool; unfold is_size_t; lia).
  unfold peek. rewrite Hmem. subst p'. rewrite reset_cells. cbv zeta.
  set (m1 := if _ && _ && _ then _ else _).
  assert (Hlen1 : length m1 = length (cells p)).
  { subst m1. destruct (_ && _ && _); [apply length_memmove|reflexivity]. }
  assert (Hm1 : forall i, 0 <= i < copy_bytes ->
                  load (memory p) m1 (memory p + i)
                  = load (memory p) (cells p) (keep + i)).
  { intros i Hi. subst m1.
    destruct (Z.eqb_spec NULL keep) as [E|_];
      [unfold_pool; unfold NULL in E; lia|].
    destruct (Z.eqb_spec keep (memory p)) as [->|Hne]; cbn [negb andb];
      [reflexivity|].
    destruct (Z.eqb_spec 0 copy_bytes) as [E|_]; cbn [negb andb]; [lia|].
    rewrite load_memmove_in by lia. f_equal. lia. }
  split.
  - intros i Hi. rewrite <- Hm1 by assumption.
    destruct (size p >? copy_bytes); [|reflexivity].
    apply load_memset_out. lia.
  - intros i Hi. rewrite Z.gtb_ltb.
    destruct (Z.ltb_spec copy_bytes (size p)); [|lia].
    apply load_memset_in; [|lia].
    rewrite size_t_small by (unfold is_size_t, SIZE_MAX in *; lia). lia.
Qed.

(** Without a block to keep and with [copy_bytes = 0], [MHD_pool_reset]
    zeroes the whole block, the head-end blocks included. *)
Lemma reset_null_zeroes p new_size :
  active p ->
  forall i, 0 <= i < size p ->
            peek (snd (MHD_pool_reset p NULL 0 new_size)) (memory p + i)
            = Some 0.
Proof.
  intros Ha i Hi.
  destruct (reset_null p 0 new_size) as (_ & _ & _ & _ & Hmem).
  unfold peek. rewrite Hmem, reset_cells. cbv zeta.
  change (negb (NULL =? NULL)) with false. cbn [andb].
  rewrite Z.gtb_ltb. destruct (Z.ltb_spec 0 (size p)); [|lia].
  assert (Hlen : Z.of_nat (length (cells p)) = size p) by (unfold_pool; tauto).
  assert (Hs : is_size_t (size p - 0)).
  { unfold_pool. unfold is_size_t. lia. }
  rewrite (size_t_small _ Hs).
  apply load_memset_in; lia.
Qed.

(** [MHD_pool_reset] keeps the invariant when the new block fits. *)
Lemma reset_invariant p keep copy_bytes new_size :
  arena_invariant p -> memory p <> NULL ->
  keep = NULL \/ ROUND_TO_ALIGN new_size <= size p ->
  arena_invariant (snd (MHD_pool_reset p keep copy_bytes new_size)).
Proof.
  intros Hi Hm Hfit. unfold arena_invariant.
  destruct (Z.eq_dec keep NULL) as [->|Hk].
  - destruct (reset_null p copy_bytes new_size) as (_ & -> & -> & -> & _).
    unfold_pool. repeat split; try lia; tauto.
  - destruct (reset_keep p keep copy_bytes new_size Hm Hk)
      as (_ & -> & -> & -> & _).
    destruct Hfit as [E|Hfit]; [contradiction|].
    pose proof (ROUND_is_size_t new_size) as Hr. unfold is_size_t in Hr.
    pose proof (ROUND_aligned new_size).
    unfold_pool. repeat split; try lia; tauto.
Qed.

(** ** Reading and writing through the pool *)

Lemma peek_bytes_lookup p a n (i : nat) :
  memory p <= a -> (i < Z.to_nat n)%nat ->
  peek_bytes p a n !! i = peek p (a + Z.of_nat i).
Proof.
  intros Ha Hi. unfold peek_bytes, peek, load.
  rewrite lookup_take_lt by assumption. rewrite lookup_drop.
  destruct (Z.leb_spec (memory p) (a + Z.of_nat i)); [|lia].
  f_equal. lia.
Qed.

Lemma peek_poke_in p a (bs : list byte) (i : nat) b :
  memory p <= a ->
  a + Z.of_nat (length bs) <= memory p + Z.of_nat (length (cells p)) ->
  bs !! i = Some b ->
  peek (poke p a bs) (a + Z.of_nat i) = Some b.
Proof.
  intros Ha Hfit Hb. unfold peek, poke. simpl.
  pose proof (lookup_lt_Some _ _ _ Hb) as Hi.
  apply load_store_in; [lia|lia|].
  replace (Z.to_nat (a + Z.of_nat i - a)) with i by lia. assumption.
Qed.

Lemma poke_active p a bs : active p -> active (poke p a bs).
Proof.
  unfold active, arena_invariant, poke. simpl.
  rewrite length_store. tauto.
Qed.

(** ** The demonstration pool *)

Lemma demo_pool_created : MHD_pool_create demo_platform 1024 = Some demo_pool.
Proof. reflexivity. Qed.

Ltac closed_arith :=
  vm_compute; repeat split; intros; try reflexivity; try discriminate; try lia.

Ltac closed_asserts :=
  vm_compute; repeat split;
  solve [ left; (discriminate || reflexivity)
        | right; (discriminate || reflexivity) ].

Lemma demo_pool_active : active demo_pool.
Proof. closed_arith. Qed.

(** * The claims *)

(** C1 (the code leaves [head] alone): [MHD_pool_reset] with a null [keep]
    sets [end] to the capacity but never assigns [pos], whatever [pos] was;
    on the 1024-byte pool, after [allocate(100, false)] has moved the head
    to 112, [reset(null, 0, 0)] leaves the head at 112 and not at 0, and a
    second [reset(null, 0, 0)] leaves it at 112 again. *)
Theorem C1_reset_null_leaves_head :
  (forall p, pos (snd (MHD_pool_reset p NULL 0 0)) = pos p /\
             end_ (snd (MHD_pool_reset p NULL 0 0)) = size p) /\
  (let p1 := snd (MHD_pool_allocate demo_pool 100 false) in
   let p2 := snd (MHD_pool_reset p1 NULL 0 0) in
   let p3 := snd (MHD_pool_reset p2 NULL 0 0) in
   pos p1 = 112 /\ pos p2 = 112 /\ pos p2 <> 0 /\ end_ p2 = 1024 /\
   pos p3 = 112 /\ end_ p3 = 1024).
Proof.
  split.
  - intros p. destruct (reset_null p 0 0) as (_ & Hp & He & _). auto.
  - vm_compute. repeat split; discriminate.
Qed.

(** C2 (the code breaks the invariant in [MHD_pool_reset]): on the
    1024-byte pool, after [p = allocate(16, false)], the call
    [reset(p, 0, 2048)] meets every asserted condition and returns with
    [pos = 2048] and [end = 1024], so [head <= tail] no longer holds and
    [MHD_pool_get_free] wraps around. *)
Theorem C2_reset_overshoots_capacity :
  let a := MHD_pool_allocate demo_pool 16 false in
  let r := MHD_pool_reset (snd a) (fst a) 0 2048 in
  arena_invariant (snd a) /\ reset_asserts (snd a) (fst a) 0 /\
  fst r = memory demo_pool /\ pos (snd r) = 2048 /\ end_ (snd r) = 1024 /\
  ~ arena_invariant (snd r) /\
  MHD_pool_get_free (snd r) = SIZE_MAX - 1023.
Proof.
  vm_compute. repeat split; try discriminate; try (right; discriminate).
  - left. discriminate.
  - intros (_ & H & _). apply H. reflexivity.
Qed.

(** The other operations keep the invariant of C2, and so does
    [MHD_pool_reset] as long as the rounded [new_size] fits the pool. *)
Lemma invariant_kept_elsewhere plat max p sz from_end old old_size new_size
    keep copy_bytes :
  (MHD_pool_create plat max = Some p -> arena_invariant p) /\
  (arena_invariant p -> size p <= SIZE_MAX ->
   arena_invariant (snd (MHD_pool_allocate p sz from_end)) /\
   arena_invariant (snd (MHD_pool_reallocate p old old_size new_size)) /\
   MHD_pool_get_free p = end_ p - pos p) /\
  (arena_invariant p -> memory p <> NULL ->
   keep = NULL \/ ROUND_TO_ALIGN new_size <= size p ->
   arena_invariant (snd (MHD_pool_reset p keep copy_bytes new_size))).
Proof.
  split; [|split].
  - intros H. apply (create_invariant _ _ _ H).
  - intros Hi Hs. split; [|split].
    + apply allocate_invariant; assumption.
    + apply reallocate_invariant; assumption.
    + apply get_free_exact; assumption.
  - apply reset_invariant.
Qed.

(** C3: when [MHD_pool_allocate] or [MHD_pool_reallocate] returns the null
    pointer, the pool after the call (cursors and bytes) is the pool before
    it; and once [allocate(1024, false)] has succeeded on a fresh 1024-byte
    pool, [allocate(1, false)] and [allocate(1, true)] both return null and
    leave the pool as it is. *)
Theorem C3_failure_changes_nothing p sz from_end old old_size new_size plat p0 :
  active p -> reallocate_asserts p old old_size ->
  MHD_pool_create plat 1024 = Some p0 -> active p0 ->
  (fst (MHD_pool_allocate p sz from_end) = NULL ->
   snd (MHD_pool_allocate p sz from_end) = p) /\
  (fst (MHD_pool_reallocate p old old_size new_size) = NULL ->
   snd (MHD_pool_reallocate p old old_size new_size) = p) /\
  (let full := MHD_pool_allocate p0 1024 false in
   fst full = memory p0 /\ fst full <> NULL /\
   MHD_pool_allocate (snd full) 1 false = (NULL, snd full) /\
   MHD_pool_allocate (snd full) 1 true = (NULL, snd full)).
Proof.
  intros Ha Hold Hc Ha0. split; [|split].
  - apply allocate_null_unchanged; unfold_pool; lia.
  - apply reallocate_null_unchanged; unfold_pool; solve [lia | tauto].
  - destruct (create_fresh _ _ _ Hc) as (Hp & He & Hs).
    change (ROUND_TO_ALIGN 1024) with 1024 in *.
    assert (Hfull : MHD_pool_allocate p0 1024 false
                    = (memory p0 + pos p0, set_pos p0 (pos p0 + 1024))).
    { apply (allocate_ok p0 1024 false); unfold_pool; try tauto.
      - vm_compute. split; discriminate.
      - right. discriminate.
      - change (ROUND_TO_ALIGN 1024) with 1024. lia. }
    cbv zeta. rewrite Hfull. cbn [fst snd]. rewrite Hp.
    split; [lia|]. split; [unfold_pool; unfold NULL; lia|].
    split; apply allocate_refused; simpl;
      try (right; change (ROUND_TO_ALIGN 1) with 16; simpl; lia);
      unfold_pool; simpl; repeat split; try lia; try tauto; reflexivity.
Qed.

(** C3 at the demonstration pool: a request of 2000 bytes, and the full pool. *)
Lemma C3_failure_changes_nothing_witness :
  active demo_pool /\ reallocate_asserts demo_pool NULL 0 /\
  MHD_pool_create demo_platform 1024 = Some demo_pool /\
  MHD_pool_allocate (snd (MHD_pool_allocate demo_pool 1024 false)) 1 true
  = (NULL, snd (MHD_pool_allocate demo_pool 1024 false)).
Proof.
  assert (H1 : active demo_pool) by closed_arith.
  assert (H2 : reallocate_asserts demo_pool NULL 0) by closed_asserts.
  assert (H3 : MHD_pool_create demo_platform 1024 = Some demo_pool)
    by reflexivity.
  destruct (C3_failure_changes_nothing demo_pool 2000 false NULL 0 2000
              demo_platform demo_pool H1 H2 H3 H1) as (_ & _ & _ & _ & _ & R).
  exact (conj H1 (conj H2 (conj H3 R))).
Defined.

(** C6: for an active pool and a non-null [keep] inside the block with
    [keep + copy_bytes <= memory + size], [MHD_pool_reset] returns [memory];
    afterwards the first [copy_bytes] bytes of the block are the bytes that
    were at [keep], [end] is [size], [pos] is the rounded [new_size], and
    every byte from offset [copy_bytes] to the end of the block is 0. *)
Theorem C6_reset_relocates_kept_block p keep copy_bytes new_size :
  active p -> keep <> NULL -> memory p <= keep ->
  keep + copy_bytes <= memory p + size p -> 0 <= copy_bytes ->
  let r := MHD_pool_reset p keep copy_bytes new_size in
  fst r = memory p /\
  (forall i, 0 <= i < copy_bytes ->
             peek (snd r) (memory p + i) = peek p (keep + i) /\
             is_Some (peek p (keep + i))) /\
  end_ (snd r) = size p /\
  pos (snd r) = ROUND_TO_ALIGN new_size /\
  (forall i, copy_bytes <= i < size p ->
             peek (snd r) (memory p + i) = Some 0).
Proof.
  intros Ha Hk Hlo Hhi Hcb r.
  assert (Hm : memory p <> NULL) by (unfold_pool; unfold NULL; lia).
  destruct (reset_keep p keep copy_bytes new_size Hm Hk)
    as (Hr & Hp & He & _ & _).
  destruct (reset_keep_bytes p keep copy_bytes new_size Ha Hlo Hhi Hcb)
    as (Hkept & Hzero).
  repeat split; try assumption.
  - apply Hkept. assumption.
  - apply load_inside. unfold_pool. lia.
Qed.

(** C6 at the demonstration pool with the bytes 7, 8, 9 stored at offset 4. *)
Lemma C6_reset_relocates_kept_block_witness :
  active (poke demo_pool 4100 [7; 8; 9]) /\
  peek (snd (MHD_pool_reset (poke demo_pool 4100 [7; 8; 9]) 4100 3 40)) 4098
  = Some 9.
Proof.
  assert (H1 : active (poke demo_pool 4100 [7; 8; 9])) by closed_arith.
  assert (H2 : 4100 <> NULL) by discriminate.
  assert (H3 : memory (poke demo_pool 4100 [7; 8; 9]) <= 4100)
    by (vm_compute; discriminate).
  assert (H4 : 4100 + 3
               <= memory (poke demo_pool 4100 [7; 8; 9])
                  + size (poke demo_pool 4100 [7; 8; 9]))
    by (vm_compute; discriminate).
  assert (H5 : 0 <= 3) by lia.
  destruct (C6_reset_relocates_kept_block _ 4100 3 40 H1 H2 H3 H4 H5)
    as (_ & R & _).
  destruct (R 2) as (R2 & _); [lia|].
  exact (conj H1 R2).
Defined.

(** C7 as the spec states it fails: on the 1024-byte pool, after
    [p = allocate(100, false)], writing "abcdefghij" at [p] and
    [reset(p, 10, 50)], the head is 64 (50 rounded up to a multiple of 16),
    not 48. *)
Lemma C7_head_is_not_48 :
  let a := MHD_pool_allocate demo_pool 100 false in
  let p2 := poke (snd a) (fst a) (bytes_of_string "abcdefghij") in
  let r := MHD_pool_reset p2 (fst a) 10 50 in
  ~ (fst r = memory demo_pool /\
     peek_bytes (snd r) (memory demo_pool) 10 = bytes_of_string "abcdefghij" /\
     pos (snd r) = 48 /\ end_ (snd r) = 1024).
Proof. vm_compute. intros (_ & _ & H & _). discriminate H. Qed.

(** C7, amended: on a fresh 1024-byte pool, after [p = allocate(100, false)],
    writing "abcdefghij" at [p] and [reset(p, 10, 50)], the call returns the
    start of the block, the first 10 bytes of the block are "abcdefghij",
    [pos] is 64 and [end] is 1024. *)
Theorem C7_reset_scenario plat p0 :
  MHD_pool_create plat 1024 = Some p0 -> active p0 ->
  let a := MHD_pool_allocate p0 100 false in
  let p2 := poke (snd a) (fst a) (bytes_of_string "abcdefghij") in
  let r := MHD_pool_reset p2 (fst a) 10 50 in
  fst r = memory p0 /\
  peek_bytes (snd r) (memory p0) 10 = bytes_of_string "abcdefghij" /\
  pos (snd r) = 64 /\ end_ (snd r) = 1024.
Proof.
  intros Hc Ha0.
  destruct (create_fresh _ _ _ Hc) as (Hp & He & Hs).
  change (ROUND_TO_ALIGN 1024) with 1024 in *.
  assert (Halloc : MHD_pool_allocate p0 100 false
                   = (memory p0 + pos p0, set_pos p0 (pos p0 + 112))).
  { apply (allocate_ok p0 100 false); unfold_pool; try tauto.
    - vm_compute. split; discriminate.
    - right. discriminate.
    - change (ROUND_TO_ALIGN 100) with 112. lia. }
  cbv zeta. rewrite Halloc. cbn [fst snd]. rewrite Hp, Z.add_0_r, Z.add_0_l.
  set (bs := bytes_of_string "abcdefghij").
  set (p2 := poke (set_pos p0 112) (memory p0) bs).
  assert (Ha1 : active (set_pos p0 112)).
  { unfold_pool. simpl. repeat split; try lia; try tauto. }
  assert (Ha2 : active p2) by apply poke_active, Ha1.
  assert (Hm : memory p2 <> NULL) by (unfold_pool; unfold NULL; simpl; lia).
  assert (Hk : memory p0 <> NULL) by exact Hm.
  destruct (reset_keep p2 (memory p0) 10 50 Hm Hk)
    as (Hr & Hpos & Hend & _ & Hmem).
  change (memory p2) with (memory p0) in Hmem.
  destruct (reset_keep_bytes p2 (memory p0) 10 50 Ha2) as (Hkept & _);
    [simpl; lia | simpl; lia | lia |].
  split; [exact Hr|]. split; [|split].
  - apply list_eq. intros i.
    destruct (decide (i < 10)%nat) as [Hi|Hi].
    + rewrite peek_bytes_lookup by (rewrite ?Hmem; simpl; lia).
      change (memory p2) with (memory p0) in Hkept.
      rewrite Hkept by lia.
      destruct (lookup_lt_is_Some_2 bs i Hi) as [b Hb]. rewrite Hb.
      apply peek_poke_in; [simpl; lia | | exact Hb].
      unfold_pool. simpl in *. change (length bs) with 10%nat. lia.
    + unfold peek_bytes. rewrite lookup_take_ge by lia.
      symmetry. apply lookup_ge_None_2. change (length bs) with 10%nat. lia.
  - rewrite Hpos. reflexivity.
  - rewrite Hend. simpl. exact Hs.
Qed.

(** C7 on the demonstration platform. *)
Lemma C7_reset_scenario_witness :
  MHD_pool_create demo_platform 1024 = Some demo_pool /\ active demo_pool /\
  pos (snd (MHD_pool_reset
              (poke (snd (MHD_pool_allocate demo_pool 100 false))
                 (fst (MHD_pool_allocate demo_pool 100 false))
                 (bytes_of_string "abcdefghij"))
              (fst (MHD_pool_allocate demo_pool 100 false)) 10 50)) = 64.
Proof.
  assert (H1 : MHD_pool_create demo_platform 1024 = Some demo_pool)
    by reflexivity.
  assert (H2 : active demo_pool) by closed_arith.
  destruct (C7_reset_scenario demo_platform demo_pool H1 H2) as (_ & _ & R & _).
  exact (conj H1 (conj H2 R)).
Defined.

(** C8 as the spec states it fails: on the 1024-byte pool the size
    [SIZE_MAX] rounds (with wrap-around) to 0, which is not more than the
    1024 free bytes, and [MHD_pool_allocate] still returns null, from either
    end, because it refuses a non-zero size that rounds to 0. *)
Lemma C8_wrapped_size_is_refused :
  active demo_pool /\
  ROUND_TO_ALIGN SIZE_MAX <= end_ demo_pool - pos demo_pool /\
  fst (MHD_pool_allocate demo_pool SIZE_MAX false) = NULL /\
  fst (MHD_pool_allocate demo_pool SIZE_MAX true) = NULL.
Proof.
  split; [exact demo_pool_active|].
  vm_compute. repeat split; discriminate.
Qed.

(** C8, amended: for an active pool and a size whose rounding does not wrap
    to 0 (the size is 0 or its rounding [asize] is not 0), if
    [asize <= end - pos] then [MHD_pool_allocate] succeeds: from the head it
    returns [memory + pos] and advances [pos] by [asize]; from the end it
    lowers [end] by [asize] and returns [memory + end].  On a fresh
    1024-byte pool [allocate(100, false)] returns the start of the block and
    leaves [pos = 112] with 912 bytes free, and [allocate(32, true)] returns
    offset 992 and leaves [end = 992] with 992 bytes free. *)
Theorem C8_allocate_succeeds p sz plat p0 :
  active p -> is_size_t sz ->
  sz = 0 \/ ROUND_TO_ALIGN sz <> 0 ->
  ROUND_TO_ALIGN sz <= end_ p - pos p ->
  MHD_pool_create plat 1024 = Some p0 -> active p0 ->
  (MHD_pool_allocate p sz false
   = (memory p + pos p, set_pos p (pos p + ROUND_TO_ALIGN sz)) /\
   memory p + pos p <> NULL) /\
  (MHD_pool_allocate p sz true
   = (memory p + (end_ p - ROUND_TO_ALIGN sz),
      set_end p (end_ p - ROUND_TO_ALIGN sz)) /\
   memory p + (end_ p - ROUND_TO_ALIGN sz) <> NULL) /\
  (let r := MHD_pool_allocate p0 100 false in
   fst r = memory p0 + 0 /\ pos (snd r) = 112 /\
   MHD_pool_get_free (snd r) = 912) /\
  (let r := MHD_pool_allocate p0 32 true in
   fst r = memory p0 + 992 /\ end_ (snd r) = 992 /\
   MHD_pool_get_free (snd r) = 992).
Proof.
  intros Ha Hsz Hnw Hroom Hc Ha0.
  assert (Hi : arena_invariant p) by (unfold_pool; tauto).
  assert (Hs : size p <= SIZE_MAX) by (unfold_pool; tauto).
  assert (Hi0 : arena_invariant p0) by (unfold_pool; tauto).
  assert (Hs0 : size p0 <= SIZE_MAX) by (unfold_pool; tauto).
  destruct (create_fresh _ _ _ Hc) as (Hp & He & Hsize).
  change (ROUND_TO_ALIGN 1024) with 1024 in *.
  split; [|split; [|split]].
  - split; [exact (allocate_ok p sz false Hi Hs Hsz Hnw Hroom)|].
    unfold_pool. unfold NULL. lia.
  - split; [exact (allocate_ok p sz true Hi Hs Hsz Hnw Hroom)|].
    pose proof (ROUND_is_size_t sz) as Hr.
    unfold_pool. unfold NULL, is_size_t in *. lia.
  - cbv zeta. rewrite (allocate_ok p0 100 false Hi0 Hs0).
    + change (ROUND_TO_ALIGN 100) with 112. cbn [fst snd].
      unfold MHD_pool_get_free. simpl. rewrite Hp, He. repeat split.
    + vm_compute. split; discriminate.
    + right. discriminate.
    + change (ROUND_TO_ALIGN 100) with 112. lia.
  - cbv zeta. rewrite (allocate_ok p0 32 true Hi0 Hs0).
    + change (ROUND_TO_ALIGN 32) with 32. cbn [fst snd].
      unfold MHD_pool_get_free. simpl. rewrite Hp, He. repeat split.
    + vm_compute. split; discriminate.
    + right. discriminate.
    + change (ROUND_TO_ALIGN 32) with 32. lia.
Qed.

(** C8 at the demonstration pool, for 33 bytes from the end. *)
Lemma C8_allocate_succeeds_witness :
  active demo_pool /\ is_size_t 33 /\ (33 = 0 \/ ROUND_TO_ALIGN 33 <> 0) /\
  ROUND_TO_ALIGN 33 <= end_ demo_pool - pos demo_pool /\
  MHD_pool_create demo_platform 1024 = Some demo_pool /\
  MHD_pool_allocate demo_pool 33 true
  = (memory demo_pool + (end_ demo_pool - ROUND_TO_ALIGN 33),
     set_end demo_pool (end_ demo_pool - ROUND_TO_ALIGN 33)).
Proof.
  assert (H1 : active demo_pool) by closed_arith.
  assert (H2 : is_size_t 33) by (vm_compute; split; discriminate).
  assert (H3 : 33 = 0 \/ ROUND_TO_ALIGN 33 <> 0) by (right; discriminate).
  assert (H4 : ROUND_TO_ALIGN 33 <= end_ demo_pool - pos demo_pool)
    by (vm_compute; discriminate).
  assert (H5 : MHD_pool_create demo_platform 1024 = Some demo_pool)
    by reflexivity.
  destruct (C8_allocate_succeeds demo_pool 33 demo_platform demo_pool
              H1 H2 H3 H4 H5 H1) as (_ & (R & _) & _).
  exact (conj H1 (conj H2 (conj H3 (conj H4 (conj H5 R))))).
Defined.

(** C4 as the spec states it fails: on the 1024-byte pool, with
    [p = allocate(100, false)] the last block, the size
    [new_size = SIZE_MAX - 14] makes [old_offset + new_size] round (with
    wrap-around) to 0, which is not above [end], and
    [MHD_pool_reallocate] still returns null: its first test refuses every
    [new_size] for which [new_size + 2 * ALIGN_SIZE] wraps. *)
Lemma C4_guard_refuses_before_last_block_test :
  let a := MHD_pool_allocate demo_pool 100 false in
  let p := snd a in
  let old := fst a in
  let new_size := SIZE_MAX - 14 in
  active p /\ reallocate_asserts p old 100 /\
  pos p = ROUND_TO_ALIGN (size_t (size_t (old - memory p) + 100)) /\
  ~ ROUND_TO_ALIGN (size_t (size_t (old - memory p) + new_size)) > end_ p /\
  fst (MHD_pool_reallocate p old 100 new_size) = NULL.
Proof.
  cbv zeta. split; [closed_arith|].
  split; [closed_asserts|].
  vm_compute. repeat split; discriminate.
Qed.

(** C4, amended: let [old] with [old_size <> 0] be the last head-end block,
    that is [pos = round(old_offset + old_size)] for
    [old_offset = old - memory].  When [new_size + 2 * ALIGN_SIZE] wraps,
    [MHD_pool_reallocate] returns null and leaves the pool as it was.  When
    it does not wrap and [old_offset + new_size + (ALIGN_SIZE - 1)] does not
    wrap either, [round(old_offset + new_size)] is the true sum rounded up,
    and the call returns null exactly when it is above [end], leaving the
    pool as it was; otherwise it returns [old], sets [pos] to
    [round(old_offset + new_size)], leaves [end] alone and, when
    [old_size > new_size], zeroes the bytes from [old + new_size] up to
    [old + old_size] and no others.  Nothing is said of a [new_size] that
    passes the first test while [old_offset + new_size + (ALIGN_SIZE - 1)]
    wraps.  On a fresh 1024-byte pool, after [p = allocate(100, false)],
    [reallocate(p, 100, 200)] returns [p] and leaves [pos = 208]. *)
Theorem C4_reallocate_last_block p old old_size new_size plat p0 :
  active p -> reallocate_asserts p old old_size ->
  is_size_t old_size -> is_size_t new_size -> old_size <> 0 ->
  pos p = ROUND_TO_ALIGN (size_t (size_t (old - memory p) + old_size)) ->
  MHD_pool_create plat 1024 = Some p0 -> active p0 ->
  let old_offset := old - memory p in
  let new_head :=
    ROUND_TO_ALIGN (size_t (size_t (old - memory p) + new_size)) in
  let r := MHD_pool_reallocate p old old_size new_size in
  (SIZE_MAX < new_size + 2 * ALIGN_SIZE -> r = (NULL, p)) /\
  (new_size + 2 * ALIGN_SIZE <= SIZE_MAX ->
   old_offset + new_size + (ALIGN_SIZE - 1) <= SIZE_MAX ->
   (aligned new_head /\
    old_offset + new_size <= new_head < old_offset + new_size + ALIGN_SIZE) /\
   (fst r = NULL <-> new_head > end_ p) /\
   (new_head > end_ p -> snd r = p) /\
   (new_head <= end_ p ->
    fst r = old /\ pos (snd r) = new_head /\ end_ (snd r) = end_ p /\
    (forall a, old_size > new_size -> old + new_size <= a < old + old_size ->
               peek (snd r) a = Some 0) /\
    (forall a,
       ~ (old_size > new_size /\ old + new_size <= a < old + old_size) ->
       peek (snd r) a = peek p a))) /\
  (let a := MHD_pool_allocate p0 100 false in
   let r' := MHD_pool_reallocate (snd a) (fst a) 100 200 in
   fst r' = fst a /\ fst r' <> NULL /\ pos (snd r') = 208).
Proof.
  intros Ha Hold Hos Hns Hnz Hlast Hc Ha0 old_offset new_head r.
  split; [|split].
  - intros Hw. subst r. apply reallocate_guard; assumption.
  - intros Hw Hsum.
    assert (Hr : r = if new_head >? end_ p then (NULL, p)
                     else if old_size >? new_size
                          then (old, set_cells (set_pos p new_head)
                                       (memset (memory p) (cells p)
                                          (old + new_size) 0
                                          (size_t (old_size - new_size))))
                          else (old, set_pos p new_head)).
    { subst r. apply reallocate_last; assumption. }
    assert (Hnn : old <> NULL /\ memory p <= old /\
                  old + old_size <= memory p + size p).
    { unfold_pool. lia. }
    assert (Hlen : Z.of_nat (length (cells p)) = size p)
      by (unfold_pool; tauto).
    assert (Hoff : size_t (size_t (old - memory p) + new_size)
                   = old_offset + new_size).
    { subst old_offset. unfold is_size_t in *.
      rewrite (size_t_small (old - memory p))
        by (unfold is_size_t, ALIGN_SIZE, sizeof_voidp in *; lia).
      apply size_t_small.
      unfold is_size_t, ALIGN_SIZE, sizeof_voidp in *. lia. }
    assert (Htrue : aligned new_head /\
                    old_offset + new_size <= new_head
                    < old_offset + new_size + ALIGN_SIZE).
    { split; [apply ROUND_aligned|].
      subst new_head. rewrite Hoff. apply ROUND_no_wrap; [|assumption].
      subst old_offset. unfold is_size_t in *. lia. }
    rewrite !Z.gtb_ltb in Hr.
    split; [exact Htrue|]. split; [|split].
    + rewrite Hr. destruct (Z.ltb_spec (end_ p) new_head) as [H|H].
      * simpl. split; [lia|reflexivity].
      * destruct (new_size <? old_size); simpl; split; intros;
          [tauto|lia|tauto|lia].
    + intros Hgt. rewrite Hr.
      destruct (Z.ltb_spec (end_ p) new_head); [reflexivity|lia].
    + intros Hle. rewrite Hr.
      destruct (Z.ltb_spec (end_ p) new_head); [lia|].
      destruct (Z.ltb_spec new_size old_size) as [Hsh|Hsh]; simpl.
      * assert (Hcnt : size_t (old_size - new_size) = old_size - new_size).
        { apply size_t_small. unfold is_size_t in *. lia. }
        rewrite Hcnt. unfold peek. simpl. unfold is_size_t in *.
        repeat split.
        -- intros a _ Hin. apply load_memset_in; lia.
        -- intros a Hout. apply load_memset_out. lia.
      * repeat split.
        intros a Hgt. lia.
  - destruct (create_fresh _ _ _ Hc) as (Hp & He & Hs).
    change (ROUND_TO_ALIGN 1024) with 1024 in *.
    cbv zeta. rewrite (allocate_ok p0 100 false).
    + change (ROUND_TO_ALIGN 100) with 112. cbn [fst snd].
      rewrite (reallocate_last _ (memory p0 + pos p0) 100 200).
      * cbn [memory set_pos pos end_].
        replace (memory p0 + pos p0 - memory p0) with 0 by lia.
        change (ROUND_TO_ALIGN (size_t (size_t 0 + 200))) with 208.
        cbv zeta. rewrite He. change (208 >? 1024) with false.
        change (100 >? 200) with false. cbv iota. cbn [fst snd pos set_pos].
        repeat split. unfold_pool. unfold NULL. lia.
      * vm_compute. split; discriminate.
      * vm_compute. discriminate.
      * discriminate.
      * cbn [memory set_pos pos].
        replace (memory p0 + pos p0 - memory p0) with 0 by lia.
        rewrite Hp. reflexivity.
    + unfold_pool; tauto.
    + unfold_pool; tauto.
    + vm_compute. split; discriminate.
    + right. discriminate.
    + change (ROUND_TO_ALIGN 100) with 112. lia.
Qed.

(** C4 at the demonstration pool: a block of 100 bytes, each written with
    the byte 7, shrinks to 40 bytes: the byte at offset 44 is zeroed and
    the byte at offset 4 is kept. *)
Lemma C4_reallocate_last_block_witness :
  let a := MHD_pool_allocate demo_pool 100 false in
  let p := poke (snd a) (fst a) (replicate 100 7) in
  active p /\ reallocate_asserts p 4096 100 /\
  pos p = ROUND_TO_ALIGN (size_t (size_t (4096 - memory p) + 100)) /\
  40 + 2 * ALIGN_SIZE <= SIZE_MAX /\
  4096 - memory p + 40 + (ALIGN_SIZE - 1) <= SIZE_MAX /\
  peek p 4140 = Some 7 /\
  peek (snd (MHD_pool_reallocate p 4096 100 40)) 4140 = Some 0 /\
  peek (snd (MHD_pool_reallocate p 4096 100 40)) 4100 = Some 7.
Proof.
  cbv zeta.
  set (p := poke (snd (MHD_pool_allocate demo_pool 100 false))
              (fst (MHD_pool_allocate demo_pool 100 false))
              (replicate 100 7)).
  assert (H1 : active p) by closed_arith.
  assert (H2 : reallocate_asserts p 4096 100) by closed_asserts.
  assert (H3 : is_size_t 100) by (vm_compute; split; discriminate).
  assert (H4 : is_size_t 40) by (vm_compute; split; discriminate).
  assert (H5 : 100 <> 0) by discriminate.
  assert (H6 : pos p
               = ROUND_TO_ALIGN (size_t (size_t (4096 - memory p) + 100)))
    by reflexivity.
  assert (H7 : 40 + 2 * ALIGN_SIZE <= SIZE_MAX) by (vm_compute; discriminate).
  assert (H8 : 4096 - memory p + 40 + (ALIGN_SIZE - 1) <= SIZE_MAX)
    by (vm_compute; discriminate).
  assert (H9 : MHD_pool_create demo_platform 1024 = Some demo_pool)
    by reflexivity.
  assert (H10 : active demo_pool) by closed_arith.
  assert (H11 : peek p 4140 = Some 7) by reflexivity.
  assert (H12 : peek p 4100 = Some 7) by reflexivity.
  destruct (C4_reallocate_last_block p 4096 100 40 demo_platform demo_pool
              H1 H2 H3 H4 H5 H6 H9 H10) as (_ & R & _).
  destruct (R H7 H8) as (_ & _ & _ & R').
  destruct R' as (_ & _ & _ & Rz & Rk); [vm_compute; discriminate|].
  assert (Hsh : 100 > 40) by reflexivity.
  assert (Hin : 4096 + 40 <= 4140 < 4096 + 100) by lia.
  assert (Hout : ~ (100 > 40 /\ 4096 + 40 <= 4100 < 4096 + 100)) by lia.
  exact (conj H1 (conj H2 (conj H6 (conj H7 (conj H8 (conj H11
           (conj (Rz 4140 Hsh Hin) (eq_trans (Rk 4100 Hout) H12)))))))).
Defined.

(** C5 as the spec states it fails: on the 1024-byte pool, with
    [p = allocate(100, false)] followed by [allocate(50, false)], the block
    [p] is not the last one; [new_size = SIZE_MAX] rounds (with wrap-around)
    to 0, which is not more than the free space, and [MHD_pool_reallocate]
    still returns null because of its first test. *)
Lemma C5_guard_refuses_before_new_block :
  let a := MHD_pool_allocate demo_pool 100 false in
  let p := snd (MHD_pool_allocate (snd a) 50 false) in
  let old := fst a in
  active p /\ reallocate_asserts p old 100 /\
  pos p <> ROUND_TO_ALIGN (size_t (size_t (old - memory p) + 100)) /\
  ~ ROUND_TO_ALIGN SIZE_MAX > end_ p - pos p /\
  fst (MHD_pool_reallocate p old 100 SIZE_MAX) = NULL.
Proof.
  cbv zeta. split; [closed_arith|].
  split; [closed_asserts|].
  vm_compute. repeat split; discriminate.
Qed.

(** C5, amended: let [old] with [old_size <> 0] be a head-end block (it ends
    at or before [memory + pos]) that is not the last one.  When
    [new_size + 2 * ALIGN_SIZE] wraps, [MHD_pool_reallocate] returns null
    and leaves the pool as it was.  When it does not wrap, the call returns
    null exactly when [round(new_size) > end - pos], leaving the pool as it
    was; otherwise, the [old_size] bytes from [memory + pos] on being
    bytes of the buffer ([pos + old_size <= size]: the C copy is not
    defined beyond it), it returns [memory + pos], which differs from
    [old], advances [pos] by [round(new_size)], leaves [end] alone, holds
    from the new address on all the [old_size] bytes of [old], zeroes the
    [old_size] bytes of [old] and changes no other byte; the old block
    stays below the new [pos]. *)
Theorem C5_reallocate_other_block p old old_size new_size :
  active p -> reallocate_asserts p old old_size ->
  is_size_t old_size -> is_size_t new_size -> old_size <> 0 ->
  pos p <> ROUND_TO_ALIGN (size_t (size_t (old - memory p) + old_size)) ->
  old + old_size <= memory p + pos p ->
  let asize := ROUND_TO_ALIGN new_size in
  let r := MHD_pool_reallocate p old old_size new_size in
  (SIZE_MAX < new_size + 2 * ALIGN_SIZE -> r = (NULL, p)) /\
  (new_size + 2 * ALIGN_SIZE <= SIZE_MAX ->
   (asize > end_ p - pos p -> r = (NULL, p)) /\
   (asize <= end_ p - pos p -> pos p + old_size <= size p ->
    fst r = memory p + pos p /\ fst r <> NULL /\ fst r <> old /\
    pos (snd r) = pos p + asize /\ end_ (snd r) = end_ p /\
    (forall i, 0 <= i < old_size ->
               peek (snd r) (memory p + pos p + i) = peek p (old + i)) /\
    (forall i, 0 <= i < old_size -> peek (snd r) (old + i) = Some 0) /\
    (forall a, ~ (memory p + pos p <= a < memory p + pos p + old_size) ->
               ~ (old <= a < old + old_size) ->
               peek (snd r) a = peek p a) /\
    old + old_size <= memory (snd r) + pos (snd r))).
Proof.
  intros Ha Hold Hos Hns Hnz Hnot Hblk asize r.
  split.
  { intros Hw. subst r. apply reallocate_guard; assumption. }
  intros Hw.
  assert (Hr : r = if asize >? size_t (end_ p - pos p) then (NULL, p)
                   else (memory p + pos p,
                         set_cells (set_pos p (size_t (pos p + asize)))
                           (memset (memory p)
                              (memcpy (memory p) (cells p) (memory p + pos p)
                                 old old_size)
                              old 0 old_size))).
  { subst r. apply reallocate_moves; assumption. }
  assert (Hnn : old <> NULL /\ memory p <= old /\ old < memory p + pos p).
  { unfold_pool. lia. }
  assert (Hlen : Z.of_nat (length (cells p)) = size p) by (unfold_pool; tauto).
  assert (Hfree : size_t (end_ p - pos p) = end_ p - pos p).
  { apply size_t_small. unfold_pool. unfold is_size_t. lia. }
  assert (Hmp : 0 < memory p /\ 0 <= pos p /\ end_ p <= size p /\
                size p <= SIZE_MAX) by (unfold_pool; lia).
  pose proof (ROUND_is_size_t new_size) as Hasz. fold asize in Hasz.
  rewrite Hfree, Z.gtb_ltb in Hr. unfold is_size_t in *.
  split.
  - intros Hgt. rewrite Hr.
    destruct (Z.ltb_spec (end_ p - pos p) asize); [reflexivity|lia].
  - intros Hle Hfit. rewrite Hr.
    destruct (Z.ltb_spec (end_ p - pos p) asize); [lia|].
    assert (Hsum : size_t (pos p + asize) = pos p + asize).
    { apply size_t_small. unfold is_size_t. lia. }
    rewrite Hsum. unfold peek, memcpy. simpl.
    repeat split; try (unfold NULL; lia).
    + intros i Hi.
      rewrite load_memset_out by lia.
      rewrite load_memmove_in by lia.
      f_equal. lia.
    + intros i Hi. apply load_memset_in; [lia|].
      rewrite length_memmove. lia.
    + intros a Hnew Hnold.
      rewrite load_memset_out by exact Hnold.
      apply load_memmove_out. exact Hnew.
Qed.

(** C5 at the demonstration pool: the first of two blocks, written with
    "abcdefghij", moves to a new block of 200 bytes, which starts with these
    bytes. *)
Lemma C5_reallocate_other_block_witness :
  let a := MHD_pool_allocate demo_pool 100 false in
  let p1 := poke (snd a) (fst a) (bytes_of_string "abcdefghij") in
  let p := snd (MHD_pool_allocate p1 50 false) in
  let r := MHD_pool_reallocate p 4096 100 200 in
  active p /\ reallocate_asserts p 4096 100 /\
  pos p <> ROUND_TO_ALIGN (size_t (size_t (4096 - memory p) + 100)) /\
  4096 + 100 <= memory p + pos p /\
  200 + 2 * ALIGN_SIZE <= SIZE_MAX /\
  ROUND_TO_ALIGN 200 <= end_ p - pos p /\ pos p + 100 <= size p /\
  fst r <> 4096 /\ pos (snd r) = pos p + 208 /\
  peek p (4096 + 9) = Some 106 /\
  peek (snd r) (memory p + pos p + 9) = Some 106 /\
  (forall i, 0 <= i < 100 -> peek (snd r) (4096 + i) = Some 0).
Proof.
  cbv zeta.
  set (p := snd (MHD_pool_allocate
                   (poke (snd (MHD_pool_allocate demo_pool 100 false))
                      (fst (MHD_pool_allocate demo_pool 100 false))
                      (bytes_of_string "abcdefghij")) 50 false)).
  assert (H1 : active p) by closed_arith.
  assert (H2 : reallocate_asserts p 4096 100) by closed_asserts.
  assert (H3 : is_size_t 100) by (vm_compute; split; discriminate).
  assert (H4 : is_size_t 200) by (vm_compute; split; discriminate).
  assert (H5 : 100 <> 0) by discriminate.
  assert (H6 : pos p
               <> ROUND_TO_ALIGN (size_t (size_t (4096 - memory p) + 100)))
    by (vm_compute; discriminate).
  assert (H7 : 4096 + 100 <= memory p + pos p) by (vm_compute; discriminate).
  assert (H8 : 200 + 2 * ALIGN_SIZE <= SIZE_MAX) by (vm_compute; discriminate).
  assert (H9 : ROUND_TO_ALIGN 200 <= end_ p - pos p)
    by (vm_compute; discriminate).
  assert (H10 : pos p + 100 <= size p) by (vm_compute; discriminate).
  assert (H11 : peek p (4096 + 9) = Some 106) by reflexivity.
  destruct (C5_reallocate_other_block p 4096 100 200 H1 H2 H3 H4 H5 H6 H7)
    as (_ & R).
  destruct (R H8) as (_ & R').
  destruct (R' H9 H10) as (_ & _ & R1 & R2 & _ & R3 & R4 & _).
  assert (Hi : 0 <= 9 < 100) by lia.
  exact (conj H1 (conj H2 (conj H6 (conj H7 (conj H8 (conj H9 (conj H10
           (conj R1 (conj R2 (conj H11
              (conj (eq_trans (R3 9 Hi) H11) R4))))))))))).
Defined.
(** C9 (the code overwrites a tail-end block): on the 1024-byte pool the
    tail-end block [t = allocate(512, true)] is written with "persistent"
    before any head-end call; then [a = allocate(256, false)],
    [allocate(16, false)] and [reallocate(a, 256, 16)] all succeed and meet
    the asserted conditions.  The last call takes a new block of 16 bytes at
    offset 272 and copies the 256 old bytes there, up to offset 528, across
    [end = 512]: the first bytes of [t] are no longer "persistent". *)
Theorem C9_head_reallocate_overwrites_tail_block :
  let t := MHD_pool_allocate demo_pool 512 true in
  let p1 := poke (snd t) (fst t) (bytes_of_string "persistent") in
  let a := MHD_pool_allocate p1 256 false in
  let b := MHD_pool_allocate (snd a) 16 false in
  let r := MHD_pool_reallocate (snd b) (fst a) 256 16 in
  fst t = memory demo_pool + 512 /\ fst a = memory demo_pool /\
  fst b = memory demo_pool + 256 /\
  active (snd b) /\ reallocate_asserts (snd b) (fst a) 256 /\
  fst r = memory demo_pool + 272 /\ pos (snd r) = 288 /\ end_ (snd r) = 512 /\
  peek_bytes (snd b) (fst t) 10 = bytes_of_string "persistent" /\
  peek_bytes (snd r) (fst t) 10 = replicate 10 0 /\
  peek_bytes (snd r) (fst t) 10 <> peek_bytes (snd b) (fst t) 10.
Proof.
  cbv zeta.
  repeat match goal with |- _ /\ _ => split end;
    try (vm_compute; reflexivity); try closed_arith; try closed_asserts.
Qed.

(** C10: for a pool that satisfies the arena invariant (its capacity, like
    that of every block of memory, at most [PTRDIFF_MAX]), every pointer
    [old] and every [new_size], the call [reallocate(old, 0, new_size)]
    gives the same result and leaves the same pool as
    [allocate(new_size, false)], and the bytes of the block are untouched.
    Where the first test of [MHD_pool_reallocate] refuses [new_size],
    [MHD_pool_allocate] refuses it as well: it is more than the capacity. *)
Theorem C10_reallocate_of_nothing_is_allocate p old new_size :
  arena_invariant p -> size p <= PTRDIFF_MAX -> is_size_t new_size ->
  MHD_pool_reallocate p old 0 new_size = MHD_pool_allocate p new_size false /\
  cells (snd (MHD_pool_reallocate p old 0 new_size)) = cells p.
Proof.
  intros Hi Hs Hn.
  assert (Hs' : size p <= SIZE_MAX /\ size p + 2 * ALIGN_SIZE <= SIZE_MAX).
  { unfold PTRDIFF_MAX, SIZE_MAX, ALIGN_SIZE, sizeof_voidp in *. lia. }
  destruct Hs' as (Hs1 & Hs2).
  assert (Heq : MHD_pool_reallocate p old 0 new_size
                = MHD_pool_allocate p new_size false).
  { destruct (Z_le_gt_dec (new_size + 2 * ALIGN_SIZE) SIZE_MAX) as [Hw|Hw].
    - rewrite reallocate_nothing by assumption.
      pose proof (ROUND_no_wrap new_size) as Hr.
      unfold MHD_pool_allocate. cbv zeta. rewrite !Z.gtb_ltb.
      assert (Hfree : size_t (end_ p - pos p) = end_ p - pos p).
      { apply size_t_small. unfold_pool. unfold is_size_t. lia. }
      rewrite Hfree.
      unfold is_size_t, ALIGN_SIZE, sizeof_voidp, SIZE_MAX in Hr, Hw, Hn, Hs1.
      repeat case_cmp; simpl; try reflexivity; exfalso; pool_arith.
    - rewrite reallocate_guard by (assumption || lia).
      symmetry. apply allocate_refused; try assumption.
      unfold_pool. arith. }
  split; [exact Heq|]. rewrite Heq. apply allocate_cells.
Qed.

(** C10 at the demonstration pool and a stray pointer: for 70 bytes, which
    both calls grant, and for [SIZE_MAX - 20] bytes, which both refuse. *)
Lemma C10_reallocate_of_nothing_is_allocate_witness :
  arena_invariant demo_pool /\ size demo_pool <= PTRDIFF_MAX /\
  is_size_t 70 /\ is_size_t (SIZE_MAX - 20) /\
  MHD_pool_reallocate demo_pool 12345 0 70
  = MHD_pool_allocate demo_pool 70 false /\
  MHD_pool_reallocate demo_pool 12345 0 (SIZE_MAX - 20)
  = MHD_pool_allocate demo_pool (SIZE_MAX - 20) false.
Proof.
  assert (H1 : arena_invariant demo_pool) by closed_arith.
  assert (H2 : size demo_pool <= PTRDIFF_MAX) by (vm_compute; discriminate).
  assert (H3 : is_size_t 70) by (vm_compute; split; discriminate).
  assert (H4 : is_size_t (SIZE_MAX - 20)) by (vm_compute; split; discriminate).
  destruct (C10_reallocate_of_nothing_is_allocate demo_pool 12345 70
              H1 H2 H3) as (R & _).
  destruct (C10_reallocate_of_nothing_is_allocate demo_pool 12345
              (SIZE_MAX - 20) H1 H2 H4) as (R' & _).
  exact (conj H1 (conj H2 (conj H3 (conj H4 (conj R R'))))).
Defined.

(** * Further properties of the pool *)

(** X1: the capacity of a created pool.  A pool starts empty ([pos = 0],
    [end = size], all of it free); its capacity is the requested maximum
    rounded up to a multiple of [ALIGN_SIZE], so it is at least [max] and
    less than [max + ALIGN_SIZE], except that for the last
    [ALIGN_SIZE - 1] values of [size_t] the rounding wraps and the pool has
    capacity 0. *)
Theorem X1_create_capacity plat max p :
  is_size_t max -> MHD_pool_create plat max = Some p ->
  pos p = 0 /\ end_ p = size p /\ aligned (size p) /\
  MHD_pool_get_free p = size p /\
  (max <= SIZE_MAX - (ALIGN_SIZE - 1) -> max <= size p < max + ALIGN_SIZE) /\
  (SIZE_MAX - (ALIGN_SIZE - 1) < max -> size p = 0).
Proof.
  intros Hmax Hc.
  destruct (create_fresh _ _ _ Hc) as (Hp & He & Hs).
  pose proof (ROUND_is_size_t max) as Hr.
  pose proof (ROUND_aligned max) as Hal.
  unfold MHD_pool_get_free. rewrite Hp, He, Hs.
  repeat split; try assumption.
  - rewrite Z.sub_0_r. apply size_t_small. assumption.
  - apply ROUND_no_wrap; unfold is_size_t in *; lia.
  - apply ROUND_no_wrap; unfold is_size_t in *; lia.
  - intros Hbig. apply (ROUND_wraps max Hmax). assumption.
Qed.

(** X1 for a request of [SIZE_MAX] bytes, which wraps to capacity 0. *)
Lemma X1_create_capacity_witness :
  is_size_t SIZE_MAX /\
  MHD_pool_create demo_platform SIZE_MAX
  = Some (mkPool 4096 [] 0 0 0 false) /\
  size (mkPool 4096 [] 0 0 0 false) = 0.
Proof.
  assert (H1 : is_size_t SIZE_MAX) by (vm_compute; split; discriminate).
  assert (H2 : MHD_pool_create demo_platform SIZE_MAX
               = Some (mkPool 4096 [] 0 0 0 false)) by reflexivity.
  destruct (X1_create_capacity demo_platform SIZE_MAX _ H1 H2)
    as (_ & _ & _ & _ & _ & R).
  assert (H3 : SIZE_MAX - (ALIGN_SIZE - 1) < SIZE_MAX) by reflexivity.
  exact (conj H1 (conj H2 (R H3))).
Defined.

(** X2: when creation fails.  [MHD_pool_create] returns null exactly when
    the handle cannot be allocated, or when no block was mapped (mapping is
    not compiled in, the rounded size is at most 32 KiB, or the mapping
    call failed) and [malloc] of the rounded size fails as well. *)
Theorem X2_create_fails_iff plat max :
  MHD_pool_create plat max = None <->
  malloc_handle plat = false \/
  ((have_map_anonymous plat = false \/ ROUND_TO_ALIGN max <= 32 * 1024 \/
    sys_mmap plat (ROUND_TO_ALIGN max) = None) /\
   sys_malloc plat (ROUND_TO_ALIGN max) = None).
Proof.
  unfold MHD_pool_create.
  destruct (malloc_handle plat); simpl; [|tauto].
  destruct (have_map_anonymous plat); simpl.
  - destruct (Z.leb_spec (ROUND_TO_ALIGN max) (32 * 1024)) as [Hle|Hgt].
    + destruct (sys_malloc plat _); split; intros H;
        try discriminate; try reflexivity.
      * destruct H as [H|[_ H]]; discriminate.
      * right. split; [right; left; exact Hle|reflexivity].
    + destruct (sys_mmap plat _) as [b|].
      * split; [discriminate|]. intros [H|[[H|[H|H]] _]];
          try discriminate; lia.
      * destruct (sys_malloc plat _); split; intros H;
          try discriminate; try reflexivity.
        -- destruct H as [H|[_ H]]; discriminate.
        -- right. split; [right; right; reflexivity|reflexivity].
  - destruct (sys_malloc plat _); split; intros H;
      try discriminate; try reflexivity.
    + destruct H as [H|[_ H]]; discriminate.
    + right. split; [left; reflexivity|reflexivity].
Qed.

(** X3: release matches acquisition.  For a pool made by
    [MHD_pool_create] in the same build, [MHD_pool_destroy] never reaches
    [abort]: a mapped block (only for a rounded size above 32 KiB) is
    released by [munmap] with exactly the mapped length, or by
    [VirtualFree]; a [malloc]ed block is released by [free]; the handle is
    freed last. *)
Theorem X3_destroy_matches_create plat b max p :
  have_map_anonymous plat = build_maps b ->
  MHD_pool_create plat max = Some p ->
  ~ In call_abort (MHD_pool_destroy b (Some p)) /\
  (is_mmap p = true ->
   32 * 1024 < ROUND_TO_ALIGN max /\
   sys_mmap plat (ROUND_TO_ALIGN max) = Some (mkBlock (memory p) (cells p)) /\
   MHD_pool_destroy b (Some p) =
     [match b with
      | BUILD_WIN32 => call_VirtualFree (memory p)
      | _ => call_munmap (memory p) (ROUND_TO_ALIGN max)
      end; call_free_handle]) /\
  (is_mmap p = false ->
   sys_malloc plat (ROUND_TO_ALIGN max) = Some (mkBlock (memory p) (cells p)) /\
   MHD_pool_destroy b (Some p) = [call_free (memory p); call_free_handle]).
Proof.
  intros Hb Hc. unfold MHD_pool_create in Hc.
  destruct (malloc_handle plat); simpl in Hc; [|discriminate].
  destruct (have_map_anonymous plat); simpl in Hc.
  - destruct (Z.leb_spec (ROUND_TO_ALIGN max) (32 * 1024)) as [Hle|Hgt].
    + destruct (sys_malloc plat _) as [[a m]|] eqn:Hm; [|discriminate].
      injection Hc as <-. simpl. repeat split; try discriminate.
      intros [H|[H|[]]]; discriminate.
    + destruct (sys_mmap plat _) as [[a m]|] eqn:Hmap.
      * injection Hc as <-. simpl.
        destruct b; try discriminate; simpl; repeat split;
          try discriminate; try assumption;
          intros [H|[H|[]]]; discriminate.
      * destruct (sys_malloc plat _) as [[a m]|] eqn:Hm; [|discriminate].
        injection Hc as <-. simpl. repeat split; try discriminate.
        intros [H|[H|[]]]; discriminate.
  - destruct (sys_malloc plat _) as [[a m]|] eqn:Hm; [|discriminate].
    injection Hc as <-. simpl. repeat split; try discriminate.
    intros [H|[H|[]]]; discriminate.
Qed.

(** X3 for a pool of 64 KiB, which is mapped. *)
Lemma X3_destroy_matches_create_witness :
  have_map_anonymous demo_platform = build_maps BUILD_MMAP /\
  MHD_pool_destroy BUILD_MMAP (MHD_pool_create demo_platform 65536)
  = [call_munmap 65536 65536; call_free_handle].
Proof.
  assert (H1 : have_map_anonymous demo_platform = build_maps BUILD_MMAP)
    by reflexivity.
  assert (H2 : MHD_pool_create demo_platform 65536
               = Some (mkPool 65536 (replicate (Z.to_nat 65536) 0)
                         65536 0 65536 true)) by reflexivity.
  destruct (X3_destroy_matches_create demo_platform BUILD_MMAP 65536 _ H1 H2)
    as (_ & R & _).
  destruct (R eq_refl) as (_ & _ & R').
  exact (conj H1 R').
Defined.

(** What a successful [MHD_pool_allocate] does to an active pool: the block
    is cut from one end of the free gap between [pos] and [end]. *)
Lemma allocate_carves_gap p sz from_end :
  active p -> is_size_t sz ->
  fst (MHD_pool_allocate p sz from_end) <> NULL ->
  let r := MHD_pool_allocate p sz from_end in
  (sz = 0 \/ ROUND_TO_ALIGN sz <> 0) /\
  ROUND_TO_ALIGN sz <= end_ p - pos p /\
  r = if from_end
      then (memory p + (end_ p - ROUND_TO_ALIGN sz),
            set_end p (end_ p - ROUND_TO_ALIGN sz))
      else (memory p + pos p, set_pos p (pos p + ROUND_TO_ALIGN sz)).
Proof.
  intros Ha Hsz Hok r.
  assert (Hi : arena_invariant p) by (unfold_pool; tauto).
  assert (Hs : size p <= SIZE_MAX) by (unfold_pool; tauto).
  destruct (Z.eq_dec (ROUND_TO_ALIGN sz) 0) as [Hz|Hnz].
  - destruct (Z.eq_dec sz 0) as [->|Hsnz].
    + assert (Hroom : ROUND_TO_ALIGN 0 <= end_ p - pos p).
      { change (ROUND_TO_ALIGN 0) with 0. unfold_pool. lia. }
      split; [left; reflexivity|]. split; [exact Hroom|].
      apply (allocate_ok p 0 from_end Hi Hs Hsz); [left; reflexivity|].
      exact Hroom.
    + exfalso. apply Hok.
      rewrite (allocate_refused p sz from_end Hi Hs); [reflexivity|].
      left. split; assumption.
  - destruct (Z_le_gt_dec (ROUND_TO_ALIGN sz) (end_ p - pos p)) as [Hle|Hgt].
    + split; [right; exact Hnz|]. split; [exact Hle|].
      apply (allocate_ok p sz from_end Hi Hs Hsz); [right; exact Hnz|].
      exact Hle.
    + exfalso. apply Hok.
      rewrite (allocate_refused p sz from_end Hi Hs); [reflexivity|].
      right. exact Hgt.
Qed.

Lemma allocate_active p sz from_end :
  active p -> active (snd (MHD_pool_allocate p sz from_end)).
Proof.
  intros Ha. pose proof Ha as (Hi & Hs & Hm & Hfit & Hlen).
  pose proof (allocate_invariant p sz from_end Hi Hs) as Hi'.
  unfold active. split; [exact Hi'|].
  unfold MHD_pool_allocate.
  destruct (_ && _); [tauto|]. destruct (_ || _); [tauto|].
  destruct from_end; simpl; tauto.
Qed.

Lemma reallocate_active p old old_size new_size :
  active p -> active (snd (MHD_pool_reallocate p old old_size new_size)).
Proof.
  intros Ha. pose proof Ha as (Hi & Hs & Hm & Hfit & Hlen).
  pose proof (reallocate_invariant p old old_size new_size Hi Hs) as Hi'.
  unfold active. split; [exact Hi'|].
  unfold MHD_pool_reallocate.
  destruct (_ <? new_size); [tauto|]. cbv zeta.
  destruct (negb (0 =? old_size));
    repeat match goal with
      | |- context [if ?b then _ else _] => destruct b
      end; simpl; unfold memcpy;
    rewrite ?length_memset, ?length_memmove; tauto.
Qed.

(** X4: when [MHD_pool_allocate] succeeds.  On an active pool a request is
    served exactly when its size does not wrap in rounding and the rounded
    size is not above [MHD_pool_get_free]; a served block has at least the
    requested size, the free space drops by exactly the rounded size, and
    no byte of the block's memory is written. *)
Theorem X4_allocate_succeeds_iff p sz from_end :
  active p -> is_size_t sz ->
  let r := MHD_pool_allocate p sz from_end in
  (fst r <> NULL <->
   (sz = 0 \/ ROUND_TO_ALIGN sz <> 0) /\
   ROUND_TO_ALIGN sz <= MHD_pool_get_free p) /\
  (fst r <> NULL ->
   sz <= ROUND_TO_ALIGN sz /\
   MHD_pool_get_free (snd r) = MHD_pool_get_free p - ROUND_TO_ALIGN sz /\
   cells (snd r) = cells p /\ memory (snd r) = memory p /\
   size (snd r) = size p).
Proof.
  intros Ha Hsz r.
  assert (Hi : arena_invariant p) by (unfold_pool; tauto).
  assert (Hs : size p <= SIZE_MAX) by (unfold_pool; tauto).
  rewrite (get_free_exact p Hi Hs).
  split.
  - split.
    + intros Hok.
      destruct (allocate_carves_gap p sz from_end Ha Hsz Hok) as (H1 & H2 & _).
      auto.
    + intros (Hnw & Hroom). subst r.
      rewrite (allocate_ok p sz from_end Hi Hs Hsz Hnw Hroom).
      pose proof (ROUND_is_size_t sz) as Hr.
      destruct from_end; simpl; unfold_pool; unfold NULL, is_size_t in *; lia.
  - intros Hok.
    destruct (allocate_carves_gap p sz from_end Ha Hsz Hok) as (Hnw & Hroom & Hr).
    pose proof (allocate_active p sz from_end Ha) as Ha'.
    assert (Hi' : arena_invariant (snd r)) by (unfold active in Ha'; tauto).
    assert (Hsize : size (snd r) = size p).
    { subst r. rewrite Hr. destruct from_end; reflexivity. }
    rewrite (get_free_exact (snd r) Hi') by (rewrite Hsize; exact Hs).
    split.
    + destruct Hnw as [->|Hnz]; [reflexivity|].
      apply ROUND_no_wrap; [unfold is_size_t in Hsz; lia|].
      destruct (Z_le_gt_dec (sz + (ALIGN_SIZE - 1)) SIZE_MAX) as [H|H];
        [exact H|].
      exfalso. apply Hnz. apply (ROUND_wraps sz Hsz). lia.
    + subst r. rewrite Hr. destruct from_end; simpl; repeat split; lia.
Qed.

(** X4 at the demonstration pool, for 100 bytes from the head. *)
Lemma X4_allocate_succeeds_iff_witness :
  active demo_pool /\ is_size_t 100 /\
  MHD_pool_get_free (snd (MHD_pool_allocate demo_pool 100 false))
  = MHD_pool_get_free demo_pool - ROUND_TO_ALIGN 100.
Proof.
  assert (H1 : active demo_pool) by closed_arith.
  assert (H2 : is_size_t 100) by (vm_compute; split; discriminate).
  destruct (X4_allocate_succeeds_iff demo_pool 100 false H1 H2) as (_ & R).
  assert (H3 : fst (MHD_pool_allocate demo_pool 100 false) <> NULL)
    by (vm_compute; discriminate).
  destruct (R H3) as (_ & R' & _).
  exact (conj H1 (conj H2 R')).
Defined.

(** X5: where a block lies.  A block returned by [MHD_pool_allocate] on an
    active pool starts at a multiple of [ALIGN_SIZE] from the start of the
    buffer, lies with its whole rounded size inside the free gap
    [memory + pos, memory + end) of the pool before the call, and lies
    outside the free gap of the pool after the call, which is a part of the
    old gap; the pool stays active. *)
Theorem X5_allocate_block_in_gap p sz from_end :
  active p -> is_size_t sz ->
  fst (MHD_pool_allocate p sz from_end) <> NULL ->
  let a := fst (MHD_pool_allocate p sz from_end) in
  let p' := snd (MHD_pool_allocate p sz from_end) in
  let n := ROUND_TO_ALIGN sz in
  aligned (a - memory p) /\
  memory p + pos p <= a /\ a + n <= memory p + end_ p /\
  pos p <= pos p' /\ end_ p' <= end_ p /\
  (a + n <= memory p + pos p' \/ memory p + end_ p' <= a) /\
  active p'.
Proof.
  intros Ha Hsz Hok a p' n.
  destruct (allocate_carves_gap p sz from_end Ha Hsz Hok) as (_ & Hroom & Hr).
  pose proof (allocate_active p sz from_end Ha) as Ha'.
  pose proof (ROUND_is_size_t sz) as Hrs.
  pose proof (ROUND_aligned sz) as Hra.
  assert (Hi : arena_invariant p) by (unfold_pool; tauto).
  destruct Hi as (H0 & H1 & H2 & Hap & Hae & Has).
  fold n in Hroom, Hrs, Hra, Hr.
  subst a p'. rewrite Hr in Ha' |- *. unfold is_size_t in Hrs.
  destruct from_end; cbn [fst snd pos end_ set_pos set_end] in Ha' |- *.
  - split.
    { replace (memory p + (end_ p - n) - memory p) with (end_ p - n) by lia.
      apply aligned_sub; assumption. }
    split; [lia|]. split; [lia|]. split; [lia|]. split; [lia|].
    split; [lia|exact Ha'].
  - split.
    { replace (memory p + pos p - memory p) with (pos p) by lia. assumption. }
    split; [lia|]. split; [lia|]. split; [lia|]. split; [lia|].
    split; [lia|exact Ha'].
Qed.

(** X5 at the demonstration pool, for 32 bytes from the end. *)
Lemma X5_allocate_block_in_gap_witness :
  active demo_pool /\ is_size_t 32 /\
  fst (MHD_pool_allocate demo_pool 32 true) <> NULL /\
  fst (MHD_pool_allocate demo_pool 32 true) + ROUND_TO_ALIGN 32
  <= memory demo_pool + end_ demo_pool.
Proof.
  assert (H1 : active demo_pool) by closed_arith.
  assert (H2 : is_size_t 32) by (vm_compute; split; discriminate).
  assert (H3 : fst (MHD_pool_allocate demo_pool 32 true) <> NULL)
    by (vm_compute; discriminate).
  destruct (X5_allocate_block_in_gap demo_pool 32 true H1 H2 H3)
    as (_ & _ & R & _).
  exact (conj H1 (conj H2 (conj H3 R))).
Defined.

(** X6: two blocks never overlap.  When two calls of [MHD_pool_allocate]
    in a row succeed on an active pool, from whichever ends, the two blocks
    (with their rounded sizes) are disjoint and both lie inside the
    buffer. *)
Theorem X6_allocated_blocks_disjoint p sz1 end1 sz2 end2 :
  active p -> is_size_t sz1 -> is_size_t sz2 ->
  let r1 := MHD_pool_allocate p sz1 end1 in
  let r2 := MHD_pool_allocate (snd r1) sz2 end2 in
  fst r1 <> NULL -> fst r2 <> NULL ->
  (fst r1 + ROUND_TO_ALIGN sz1 <= fst r2 \/
   fst r2 + ROUND_TO_ALIGN sz2 <= fst r1) /\
  memory p <= fst r1 /\ fst r1 + ROUND_TO_ALIGN sz1 <= memory p + size p /\
  memory p <= fst r2 /\ fst r2 + ROUND_TO_ALIGN sz2 <= memory p + size p.
Proof.
  intros Ha Hs1 Hs2 r1 r2 Hok1 Hok2.
  destruct (allocate_carves_gap p sz1 end1 Ha Hs1 Hok1) as (_ & Hroom1 & Hr1).
  pose proof (allocate_active p sz1 end1 Ha) as Ha1.
  destruct (allocate_carves_gap (snd r1) sz2 end2 Ha1 Hs2 Hok2)
    as (_ & Hroom2 & Hr2).
  pose proof (ROUND_is_size_t sz1) as Hrs1.
  pose proof (ROUND_is_size_t sz2) as Hrs2.
  assert (Hi : arena_invariant p) by (unfold_pool; tauto).
  destruct Hi as (H0 & H1 & H2 & _).
  subst r2. rewrite Hr2. clear Hr2 Hok2.
  revert Hroom2. subst r1. rewrite Hr1. clear Hr1 Hok1 Ha1.
  unfold is_size_t in *.
  destruct end1, end2; cbn [fst snd pos end_ memory set_pos set_end];
    intros Hroom2; lia.
Qed.

(** X6 at the demonstration pool: 100 bytes from the head, 32 from the end. *)
Lemma X6_allocated_blocks_disjoint_witness :
  active demo_pool /\ is_size_t 100 /\ is_size_t 32 /\
  (fst (MHD_pool_allocate demo_pool 100 false) + ROUND_TO_ALIGN 100
   <= fst (MHD_pool_allocate (snd (MHD_pool_allocate demo_pool 100 false))
             32 true) \/
   fst (MHD_pool_allocate (snd (MHD_pool_allocate demo_pool 100 false))
          32 true) + ROUND_TO_ALIGN 32
   <= fst (MHD_pool_allocate demo_pool 100 false)).
Proof.
  assert (H1 : active demo_pool) by closed_arith.
  assert (H2 : is_size_t 100) by (vm_compute; split; discriminate).
  assert (H3 : is_size_t 32) by (vm_compute; split; discriminate).
  assert (H4 : fst (MHD_pool_allocate demo_pool 100 false) <> NULL)
    by (vm_compute; discriminate).
  assert (H5 : fst (MHD_pool_allocate
                      (snd (MHD_pool_allocate demo_pool 100 false)) 32 true)
               <> NULL) by (vm_compute; discriminate).
  destruct (X6_allocated_blocks_disjoint demo_pool 100 false 32 true
              H1 H2 H3 H4 H5) as (R & _).
  exact (conj H1 (conj H2 (conj H3 R))).
Defined.

(** X7: a request of 0 bytes.  On an active pool [MHD_pool_allocate] with
    size 0 always succeeds, even when the pool is full, and changes
    nothing: it returns the current head (or tail) address.  So a
    zero-sized head block has the address of the block allocated next. *)
Theorem X7_allocate_zero_bytes p from_end sz :
  active p -> is_size_t sz ->
  MHD_pool_allocate p 0 from_end
  = (memory p + (if from_end then end_ p else pos p), p) /\
  fst (MHD_pool_allocate p 0 from_end) <> NULL /\
  (fst (MHD_pool_allocate p sz false) <> NULL ->
   fst (MHD_pool_allocate (snd (MHD_pool_allocate p 0 false)) sz false)
   = fst (MHD_pool_allocate p 0 false)).
Proof.
  intros Ha Hsz.
  assert (Hi : arena_invariant p) by (unfold_pool; tauto).
  assert (Hs : size p <= SIZE_MAX) by (unfold_pool; tauto).
  assert (H0 : is_size_t 0) by (vm_compute; split; discriminate).
  assert (Hz : forall e, MHD_pool_allocate p 0 e
                         = (memory p + (if e then end_ p else pos p), p)).
  { intros e. rewrite (allocate_ok p 0 e Hi Hs H0).
    - change (ROUND_TO_ALIGN 0) with 0. rewrite Z.sub_0_r, Z.add_0_r.
      destruct p; destruct e; reflexivity.
    - left. reflexivity.
    - change (ROUND_TO_ALIGN 0) with 0. unfold_pool. lia. }
  split; [apply Hz|]. split.
  - rewrite Hz. cbn [fst]. destruct from_end; unfold_pool; unfold NULL; lia.
  - intros Hok. rewrite Hz. cbn [fst snd].
    destruct (allocate_carves_gap p sz false Ha Hsz Hok) as (_ & _ & ->).
    reflexivity.
Qed.

(** X7 at the demonstration pool once it is full. *)
Lemma X7_allocate_zero_bytes_witness :
  active (snd (MHD_pool_allocate demo_pool 1024 false)) /\ is_size_t 16 /\
  fst (MHD_pool_allocate (snd (MHD_pool_allocate demo_pool 1024 false)) 0 false)
  <> NULL.
Proof.
  assert (H1 : active (snd (MHD_pool_allocate demo_pool 1024 false)))
    by closed_arith.
  assert (H2 : is_size_t 16) by (vm_compute; split; discriminate).
  destruct (X7_allocate_zero_bytes _ false 16 H1 H2) as (_ & R & _).
  exact (conj H1 (conj H2 R)).
Defined.

(** Rounding a size that ends at or below an aligned bound stays at or
    below the bound. *)
Lemma ROUND_below_aligned x e :
  0 <= x <= e -> aligned e -> e <= SIZE_MAX -> ROUND_TO_ALIGN x <= e.
Proof. intros Hx He Hs. arith. Qed.

(** X8: growing the last block and shrinking it back.  Let [old] of [n]
    bytes be the last head-end block of an active pool and let [m >= n]
    bytes fit below [end].  Then [reallocate(old, n, m)] followed by
    [reallocate(old, m, n)] both return [old], and the first call writes no
    byte; afterwards [pos] and [end] are as before the two calls, the
    bytes from [old + n] up to [old + m] are 0 and every other byte is
    unchanged. *)
Theorem X8_grow_then_shrink p old n m :
  active p -> reallocate_asserts p old n ->
  is_size_t n -> is_size_t m -> n <> 0 -> n <= m ->
  m + 2 * ALIGN_SIZE <= SIZE_MAX ->
  pos p = ROUND_TO_ALIGN (size_t (size_t (old - memory p) + n)) ->
  old + m <= memory p + end_ p ->
  let r1 := MHD_pool_reallocate p old n m in
  let r2 := MHD_pool_reallocate (snd r1) (fst r1) m n in
  fst r1 = old /\ cells (snd r1) = cells p /\ pos p <= pos (snd r1) /\
  fst r2 = old /\ pos (snd r2) = pos p /\ end_ (snd r2) = end_ p /\
  (forall a, old + n <= a < old + m -> peek (snd r2) a = Some 0) /\
  (forall a, ~ (old + n <= a < old + m) -> peek (snd r2) a = peek p a).
Proof.
  intros Ha Hold Hn Hm Hnz Hnm Hw Hlast Hfit r1 r2.
  assert (Hnn : memory p <= old) by (unfold_pool; lia).
  assert (Hinv : 0 <= pos p /\ pos p <= end_ p /\ end_ p <= size p /\
                 size p <= SIZE_MAX /\ aligned (end_ p) /\
                 Z.of_nat (length (cells p)) = size p)
    by (unfold_pool; tauto).
  destruct Hinv as (Hp0 & Hpe & Hes & Hsz & Hae & Hlen).
  assert (Hoff : size_t (old - memory p) = old - memory p).
  { apply size_t_small. unfold is_size_t in *. lia. }
  assert (Hoffn : size_t (old - memory p + n) = old - memory p + n).
  { apply size_t_small. unfold is_size_t in *. lia. }
  assert (Hoffm : size_t (old - memory p + m) = old - memory p + m).
  { apply size_t_small. unfold is_size_t in *. lia. }
  rewrite Hoff, Hoffn in Hlast.
  set (top := ROUND_TO_ALIGN (old - memory p + m)).
  assert (Htop : top <= end_ p).
  { apply ROUND_below_aligned; unfold is_size_t in *; try lia; assumption. }
  assert (Hmono : pos p <= top).
  { subst top. rewrite Hlast. unfold is_size_t in *. clear Hlast. arith. }
  assert (Hr1 : r1 = (old, set_pos p top)).
  { subst r1. rewrite (reallocate_last p old n m Hm Hw Hnz);
      [|rewrite Hoff, Hoffn; exact Hlast].
    cbv zeta. rewrite Hoff, Hoffm. fold top. rewrite !Z.gtb_ltb.
    destruct (Z.ltb_spec (end_ p) top); [lia|].
    destruct (Z.ltb_spec m n); [lia|reflexivity]. }
  assert (Hr2 : r2 = if m >? n
                     then (old, set_cells (set_pos p (pos p))
                                  (memset (memory p) (cells p) (old + n) 0
                                     (size_t (m - n))))
                     else (old, set_pos p (pos p))).
  { subst r2. rewrite Hr1. cbn [fst snd].
    rewrite (reallocate_last (set_pos p top) old m n Hn).
    - cbn [memory set_pos pos end_ cells]. cbv zeta.
      rewrite Hoff, Hoffn, <- Hlast. rewrite (Z.gtb_ltb (pos p)).
      destruct (Z.ltb_spec (end_ p) (pos p)); [lia|].
      destruct (m >? n); reflexivity.
    - lia.
    - unfold is_size_t in *. lia.
    - cbn [memory set_pos pos]. rewrite Hoff, Hoffm. reflexivity. }
  rewrite Hr1, Hr2. cbn [fst snd cells set_pos pos].
  split; [reflexivity|]. split; [reflexivity|]. split; [exact Hmono|].
  rewrite Z.gtb_ltb.
  destruct (Z.ltb_spec n m) as [Hlt|Hge];
    cbn [fst snd pos end_ set_pos set_cells]; unfold peek;
    cbn [memory cells set_pos set_cells].
  - assert (Hcnt : size_t (m - n) = m - n).
    { apply size_t_small. unfold is_size_t in *. lia. }
    rewrite Hcnt. unfold is_size_t in *. repeat split.
    + intros a Hin. apply load_memset_in; lia.
    + intros a Hout. apply load_memset_out. lia.
  - repeat split. intros a Hin. lia.
Qed.

(** X8 at the demonstration pool: the block of 100 bytes grows to 200. *)
Lemma X8_grow_then_shrink_witness :
  let p := snd (MHD_pool_allocate demo_pool 100 false) in
  active p /\ reallocate_asserts p 4096 100 /\
  pos p = ROUND_TO_ALIGN (size_t (size_t (4096 - memory p) + 100)) /\
  4096 + 200 <= memory p + end_ p /\
  pos (snd (MHD_pool_reallocate (snd (MHD_pool_reallocate p 4096 100 200))
              (fst (MHD_pool_reallocate p 4096 100 200)) 200 100))
  = pos p.
Proof.
  cbv zeta.
  set (p := snd (MHD_pool_allocate demo_pool 100 false)).
  assert (H1 : active p) by closed_arith.
  assert (H2 : reallocate_asserts p 4096 100) by closed_asserts.
  assert (H3 : is_size_t 100) by (vm_compute; split; discriminate).
  assert (H4 : is_size_t 200) by (vm_compute; split; discriminate).
  assert (H5 : 100 <> 0) by discriminate.
  assert (H6 : 100 <= 200) by discriminate.
  assert (H7 : 200 + 2 * ALIGN_SIZE <= SIZE_MAX) by (vm_compute; discriminate).
  assert (H8 : pos p
               = ROUND_TO_ALIGN (size_t (size_t (4096 - memory p) + 100)))
    by reflexivity.
  assert (H9 : 4096 + 200 <= memory p + end_ p) by (vm_compute; discriminate).
  destruct (X8_grow_then_shrink p 4096 100 200 H1 H2 H3 H4 H5 H6 H7 H8 H9)
    as (_ & _ & _ & _ & R & _).
  exact (conj H1 (conj H2 (conj H8 (conj H9 R)))).
Defined.

(** X9: what [MHD_pool_reallocate] leaves alone.  On an active pool, for a
    block that lies in the head region, a call that works in place (the
    block is the last one) or whose old size is not above the rounded new
    size never moves [end] and writes no byte at or above [memory + end]:
    the blocks allocated from the end keep their contents.  The pool stays
    active, with the same buffer. *)
Theorem X9_reallocate_spares_tail p old old_size new_size :
  active p -> reallocate_asserts p old old_size ->
  is_size_t old_size -> is_size_t new_size ->
  (old_size <> 0 -> old + old_size <= memory p + pos p) ->
  pos p = ROUND_TO_ALIGN (size_t (size_t (old - memory p) + old_size)) \/
  old_size <= ROUND_TO_ALIGN new_size ->
  let r := MHD_pool_reallocate p old old_size new_size in
  (end_ (snd r) = end_ p /\
   (forall a, memory p + end_ p <= a -> peek (snd r) a = peek p a)) /\
  active (snd r) /\ memory (snd r) = memory p /\ size (snd r) = size p.
Proof.
  intros Ha Hold Hos Hns Hblk Hsafe r.
  split.
  2:{ split; [apply reallocate_active; exact Ha|].
      subst r. unfold MHD_pool_reallocate.
      destruct (_ <? new_size); [auto|]. cbv zeta.
      destruct (negb (0 =? old_size));
        repeat match goal with
          | |- context [if ?b then _ else _] => destruct b
          end; auto. }
  assert (Hinv : 0 <= pos p /\ pos p <= end_ p /\ end_ p <= size p /\
                 size p <= SIZE_MAX) by (unfold_pool; tauto).
  destruct Hinv as (Hp0 & Hpe & Hes & Hsz).
  destruct (Z_le_gt_dec (new_size + 2 * ALIGN_SIZE) SIZE_MAX) as [Hw|Hw].
  2:{ subst r. rewrite reallocate_guard by (assumption || lia). auto. }
  destruct (Z.eq_dec old_size 0) as [Hz|Hnz].
  { subst r. rewrite Hz, reallocate_nothing by assumption. cbv zeta.
    destruct (_ >? _); simpl; auto. }
  specialize (Hblk Hnz).
  assert (Hnn : memory p <= old) by (unfold_pool; lia).
  destruct (Z.eq_dec (pos p)
              (ROUND_TO_ALIGN (size_t (size_t (old - memory p) + old_size))))
    as [Hlast|Hnot].
  - subst r. rewrite (reallocate_last p old old_size new_size Hns Hw Hnz Hlast).
    cbv zeta. destruct (_ >? end_ p); [auto|].
    rewrite Z.gtb_ltb.
    destruct (Z.ltb_spec new_size old_size); simpl; [|auto].
    split; [reflexivity|]. intros a Hat. unfold peek. simpl.
    apply load_memset_out.
    rewrite size_t_small by (unfold is_size_t in *; lia). lia.
  - destruct Hsafe as [Hsafe|Hsafe]; [contradiction|].
    subst r. rewrite (reallocate_moves p old old_size new_size Hns Hw Hnz Hnot).
    cbv zeta.
    assert (Hfree : size_t (end_ p - pos p) = end_ p - pos p).
    { apply size_t_small. unfold is_size_t. lia. }
    rewrite Hfree, Z.gtb_ltb.
    destruct (Z.ltb_spec (end_ p - pos p) (ROUND_TO_ALIGN new_size));
      [auto|].
    simpl. split; [reflexivity|]. intros a Hat. unfold peek, memcpy. simpl.
    unfold is_size_t in *.
    rewrite load_memset_out by lia.
    apply load_memmove_out. lia.
Qed.

(** X9 at the demonstration pool with a block at each end. *)
Lemma X9_reallocate_spares_tail_witness :
  let p := snd (MHD_pool_allocate
                  (snd (MHD_pool_allocate demo_pool 512 true)) 100 false) in
  active p /\ reallocate_asserts p 4096 100 /\
  end_ (snd (MHD_pool_reallocate p 4096 100 64)) = end_ p.
Proof.
  cbv zeta.
  set (p := snd (MHD_pool_allocate
                   (snd (MHD_pool_allocate demo_pool 512 true)) 100 false)).
  assert (H1 : active p) by closed_arith.
  assert (H2 : reallocate_asserts p 4096 100) by closed_asserts.
  assert (H3 : is_size_t 100) by (vm_compute; split; discriminate).
  assert (H4 : is_size_t 64) by (vm_compute; split; discriminate).
  assert (H5 : 100 <> 0 -> 4096 + 100 <= memory p + pos p)
    by (intros _; vm_compute; discriminate).
  assert (H6 : pos p
               = ROUND_TO_ALIGN (size_t (size_t (4096 - memory p) + 100)) \/
               100 <= ROUND_TO_ALIGN 64) by (left; reflexivity).
  destruct (X9_reallocate_spares_tail p 4096 100 64 H1 H2 H3 H4 H5 H6)
    as ((R & _) & _).
  exact (conj H1 (conj H2 R)).
Defined.

Lemma reset_active p keep copy_bytes new_size :
  active p -> keep = NULL \/ ROUND_TO_ALIGN new_size <= size p ->
  active (snd (MHD_pool_reset p keep copy_bytes new_size)).
Proof.
  intros Ha Hfit. pose proof Ha as (Hi & Hs & Hm & Hblk & Hlen).
  assert (Hmn : memory p <> NULL) by (unfold NULL; lia).
  pose proof (reset_invariant p keep copy_bytes new_size Hi Hmn Hfit) as Hi'.
  assert (Hfix : size (snd (MHD_pool_reset p keep copy_bytes new_size))
                 = size p /\
                 memory (snd (MHD_pool_reset p keep copy_bytes new_size))
                 = memory p).
  { destruct (Z.eq_dec keep NULL) as [->|Hk].
    - destruct (reset_null p copy_bytes new_size) as (_ & _ & _ & H1 & H2).
      auto.
    - destruct (reset_keep p keep copy_bytes new_size Hmn Hk)
        as (_ & _ & _ & H1 & H2). auto. }
  destruct Hfix as (Hsize & Hmem).
  unfold active. rewrite Hsize, Hmem.
  split; [exact Hi'|]. split; [exact Hs|]. split; [exact Hm|].
  split; [exact Hblk|].
  rewrite reset_cells. cbv zeta.
  destruct (size p >? copy_bytes); destruct (_ && _ && _);
    rewrite ?length_memset, ?length_memmove; exact Hlen.
Qed.

(** X10: [MHD_pool_reset] without a block to keep wipes the pool's memory.
    With a null [keep] and [copy_bytes = 0] every byte of the buffer of an
    active pool is 0 afterwards and [end] is back at the capacity, so the
    tail-end blocks are released; [new_size] plays no role in the
    outcome. *)
Theorem X10_reset_null_wipes p new_size :
  active p ->
  let r := MHD_pool_reset p NULL 0 new_size in
  r = MHD_pool_reset p NULL 0 0 /\ fst r = NULL /\ end_ (snd r) = size p /\
  (forall i, 0 <= i < size p -> peek (snd r) (memory p + i) = Some 0) /\
  active (snd r).
Proof.
  intros Ha r.
  destruct (reset_null p 0 new_size) as (Hr & _ & He & _).
  split; [reflexivity|]. split; [exact Hr|]. split; [exact He|].
  split; [apply reset_null_zeroes; exact Ha|].
  apply reset_active; [exact Ha|left; reflexivity].
Qed.

(** X10 at the demonstration pool after something was stored in it. *)
Lemma X10_reset_null_wipes_witness :
  active (poke demo_pool 4100 [7; 8; 9]) /\
  peek (snd (MHD_pool_reset (poke demo_pool 4100 [7; 8; 9]) NULL 0 77)) 4101
  = Some 0.
Proof.
  assert (H1 : active (poke demo_pool 4100 [7; 8; 9])) by closed_arith.
  destruct (X10_reset_null_wipes _ 77 H1) as (_ & _ & _ & R & _).
  assert (H2 : 0 <= 5 < size (poke demo_pool 4100 [7; 8; 9]))
    by (vm_compute; split; [discriminate|reflexivity]).
  exact (conj H1 (R 5 H2)).
Defined.

(** X11: allocating after a reset that keeps a block.  After
    [MHD_pool_reset] with a non-null [keep] that meets the asserted
    conditions and a [new_size] that is not above the capacity, the pool is active, everything above the rounded
    [new_size] is free, and every block allocated next, from either end,
    starts at or above [memory + new_size]: the kept block of [new_size]
    bytes at the start of the buffer is not handed out again. *)
Theorem X11_allocate_after_reset p keep copy_bytes new_size sz from_end :
  active p -> keep <> NULL -> reset_asserts p keep copy_bytes ->
  is_size_t copy_bytes -> is_size_t new_size -> new_size <= size p ->
  is_size_t sz ->
  let p' := snd (MHD_pool_reset p keep copy_bytes new_size) in
  active p' /\
  MHD_pool_get_free p' = size p - ROUND_TO_ALIGN new_size /\
  (fst (MHD_pool_allocate p' sz from_end) <> NULL ->
   memory p + new_size <= fst (MHD_pool_allocate p' sz from_end) /\
   fst (MHD_pool_allocate p' sz from_end) + ROUND_TO_ALIGN sz
   <= memory p + size p).
Proof.
  intros Ha Hk _ _ Hns Hfit Hsz p'.
  pose proof Ha as (Hi & Hs & Hm & Hblk & Hlen).
  assert (Hal : aligned (size p)) by (unfold_pool; tauto).
  assert (Hround : new_size <= ROUND_TO_ALIGN new_size <= size p).
  { split.
    - apply ROUND_no_wrap; [unfold is_size_t in Hns; lia|].
      clear - Hfit Hs Hal Hns. arith.
    - apply ROUND_below_aligned; unfold is_size_t in *; try lia; assumption. }
  assert (Hmn : memory p <> NULL) by (unfold NULL; lia).
  destruct (reset_keep p keep copy_bytes new_size Hmn Hk)
    as (_ & Hpos & Hend & Hsize & Hmem).
  assert (Ha' : active p').
  { apply reset_active; [exact Ha|right; lia]. }
  split; [exact Ha'|]. split.
  - rewrite get_free_exact.
    + subst p'. rewrite Hpos, Hend. reflexivity.
    + unfold active in Ha'. tauto.
    + subst p'. rewrite Hsize. exact Hs.
  - intros Hok.
    destruct (allocate_carves_gap p' sz from_end Ha' Hsz Hok)
      as (_ & Hroom & ->).
    pose proof (ROUND_is_size_t sz) as Hrs. unfold is_size_t in Hrs.
    subst p'. rewrite Hpos, Hend, Hmem in *.
    destruct from_end; cbn [fst]; lia.
Qed.

(** X11 at the demonstration pool: keep 10 bytes, new size 50, allocate 32. *)
Lemma X11_allocate_after_reset_witness :
  active demo_pool /\ 4096 <> NULL /\ reset_asserts demo_pool 4096 10 /\
  is_size_t 50 /\ 50 <= size demo_pool /\ is_size_t 32 /\
  MHD_pool_get_free (snd (MHD_pool_reset demo_pool 4096 10 50))
  = size demo_pool - ROUND_TO_ALIGN 50.
Proof.
  assert (H1 : active demo_pool) by closed_arith.
  assert (H2 : 4096 <> NULL) by discriminate.
  assert (H3 : is_size_t 50) by (vm_compute; split; discriminate).
  assert (H4 : 50 <= size demo_pool) by (vm_compute; discriminate).
  assert (H5 : is_size_t 32) by (vm_compute; split; discriminate).
  assert (H6 : reset_asserts demo_pool 4096 10) by closed_asserts.
  assert (H7 : is_size_t 10) by (vm_compute; split; discriminate).
  destruct (X11_allocate_after_reset demo_pool 4096 10 50 32 false
              H1 H2 H6 H7 H3 H4 H5) as (_ & R & _).
  exact (conj H1 (conj H2 (conj H6 (conj H3 (conj H4 (conj H5 R)))))).
Defined.

(** X12: [ROUND_TO_ALIGN] away from wrap-around.  For a size [n] with
    [n + ALIGN_SIZE - 1 <= SIZE_MAX] the macro gives the least multiple of
    [ALIGN_SIZE] that is not below [n]; it leaves multiples of [ALIGN_SIZE]
    as they are and rounding twice is rounding once. *)
Theorem X12_ROUND_TO_ALIGN_least_multiple n m :
  0 <= n -> n + (ALIGN_SIZE - 1) <= SIZE_MAX ->
  aligned (ROUND_TO_ALIGN n) /\
  n <= ROUND_TO_ALIGN n < n + ALIGN_SIZE /\
  (aligned m -> n <= m -> ROUND_TO_ALIGN n <= m) /\
  (aligned n -> ROUND_TO_ALIGN n = n) /\
  ROUND_TO_ALIGN (ROUND_TO_ALIGN n) = ROUND_TO_ALIGN n.
Proof.
  intros H0 Hw. repeat split; try (intros; arith); arith.
Qed.

(** X12 for a size of 50 bytes. *)
Lemma X12_ROUND_TO_ALIGN_least_multiple_witness :
  0 <= 50 /\ 50 + (ALIGN_SIZE - 1) <= SIZE_MAX /\ ROUND_TO_ALIGN 50 <= 64.
Proof.
  assert (H1 : 0 <= 50) by discriminate.
  assert (H2 : 50 + (ALIGN_SIZE - 1) <= SIZE_MAX) by (vm_compute; discriminate).
  destruct (X12_ROUND_TO_ALIGN_least_multiple 50 64 H1 H2) as (_ & _ & R & _).
  assert (H3 : aligned 64) by reflexivity.
  assert (H4 : 50 <= 64) by discriminate.
  exact (conj H1 (conj H2 (R H3 H4))).
Defined.

(** Past the first test of [MHD_pool_reallocate], a sum of offset and new
    size that wraps in rounding comes out below the offset. *)
Lemma wrapped_head_below off new_size :
  0 <= off <= SIZE_MAX -> is_size_t new_size ->
  new_size + 2 * ALIGN_SIZE <= SIZE_MAX ->
  SIZE_MAX < off + new_size + (ALIGN_SIZE - 1) ->
  ROUND_TO_ALIGN (size_t (off + new_size)) < off.
Proof. intros H1 H2 H3 H4. arith. Qed.

Lemma aligned_below_max s :
  aligned s -> s < SIZE_MAX -> s <= SIZE_MAX - (ALIGN_SIZE - 1).
Proof. intros H1 H2. arith. Qed.

(** X18: the wrap [MHD_pool_reallocate] does not test for.  Let [old] with
    [old_size <> 0] be the last head-end block, and let [new_size] pass the
    first test ([new_size + 2 * ALIGN_SIZE] does not wrap) while rounding
    up [old_offset + new_size] wraps, for [old_offset = old - memory].
    Then a block of [new_size] bytes at [old] would end beyond
    [memory + end], and still the call returns [old], not null.  It writes
    no byte, leaves [end] alone and sets [pos] to the wrapped value, which
    is below the offset of [old]: the pool stays active, [old] is no longer
    in the head region, and the next allocation from the head, when it
    succeeds, returns an address from [memory] on and below [old]. *)
Theorem X18_reallocate_misses_wrap p old old_size new_size sz :
  active p -> reallocate_asserts p old old_size ->
  is_size_t old_size -> is_size_t new_size -> old_size <> 0 ->
  pos p = ROUND_TO_ALIGN (size_t (size_t (old - memory p) + old_size)) ->
  new_size + 2 * ALIGN_SIZE <= SIZE_MAX ->
  SIZE_MAX < old - memory p + new_size + (ALIGN_SIZE - 1) ->
  let r := MHD_pool_reallocate p old old_size new_size in
  let a := MHD_pool_allocate (snd r) sz false in
  memory p + end_ p < old + new_size /\
  fst r = old /\ fst r <> NULL /\
  cells (snd r) = cells p /\ end_ (snd r) = end_ p /\
  pos (snd r) = ROUND_TO_ALIGN (size_t (size_t (old - memory p) + new_size)) /\
  memory p + pos (snd r) < old /\ active (snd r) /\
  (fst a <> NULL -> memory p <= fst a < old).
Proof.
  intros Ha Hold Hos Hns Hnz Hlast Hw Hwrap r a.
  assert (Hact : active (snd r)) by (apply reallocate_active; exact Ha).
  assert (Hr : r = let new_apos :=
                     ROUND_TO_ALIGN (size_t (size_t (old - memory p)
                                             + new_size)) in
                   if new_apos >? end_ p then (NULL, p)
                   else if old_size >? new_size
                        then (old, set_cells (set_pos p new_apos)
                                     (memset (memory p) (cells p)
                                        (old + new_size) 0
                                        (size_t (old_size - new_size))))
                        else (old, set_pos p new_apos)).
  { subst r. apply reallocate_last; assumption. }
  cbv zeta in Hr.
  assert (Hnn : old <> NULL /\ memory p <= old /\ old < memory p + pos p /\
                old + old_size <= memory p + size p).
  { unfold_pool. lia. }
  assert (Hinv : 0 <= pos p /\ pos p <= end_ p /\ end_ p <= size p /\
                 aligned (size p) /\ 0 < memory p /\
                 memory p + size p <= SIZE_MAX) by (unfold_pool; tauto).
  assert (Hoff : size_t (old - memory p) = old - memory p).
  { apply size_t_small. unfold is_size_t, SIZE_MAX in *. lia. }
  assert (Hlow : ROUND_TO_ALIGN (size_t (size_t (old - memory p) + new_size))
                 < old - memory p).
  { rewrite Hoff. apply wrapped_head_below; try assumption.
    unfold SIZE_MAX in *. lia. }
  assert (Hsmax : size p <= SIZE_MAX - (ALIGN_SIZE - 1)).
  { apply aligned_below_max; [tauto|lia]. }
  assert (Hend : end_ p < old - memory p + new_size).
  { unfold SIZE_MAX, ALIGN_SIZE, sizeof_voidp in *. lia. }
  assert (Hgrow : old_size <= new_size).
  { unfold is_size_t, SIZE_MAX, ALIGN_SIZE, sizeof_voidp in *. lia. }
  pose proof (ROUND_is_size_t (size_t (size_t (old - memory p) + new_size)))
    as Hsz.
  rewrite !Z.gtb_ltb in Hr.
  destruct (Z.ltb_spec (end_ p)
              (ROUND_TO_ALIGN (size_t (size_t (old - memory p) + new_size))))
    as [Hbad|_] in Hr; [lia|].
  destruct (Z.ltb_spec new_size old_size) as [Hbad|_] in Hr; [lia|].
  assert (Hpos : pos (snd r)
                 = ROUND_TO_ALIGN (size_t (size_t (old - memory p)
                                           + new_size)))
    by (rewrite Hr; reflexivity).
  split; [lia|].
  split; [rewrite Hr; reflexivity|].
  split; [rewrite Hr; simpl; tauto|].
  split; [rewrite Hr; reflexivity|].
  split; [rewrite Hr; reflexivity|].
  split; [exact Hpos|].
  split; [rewrite Hpos; lia|].
  split; [exact Hact|].
  subst a. unfold MHD_pool_allocate.
  destruct (_ && _); [simpl; congruence|].
  destruct (_ || _); [simpl; congruence|].
  cbn [fst]. intros _. rewrite Hpos.
  replace (memory (snd r)) with (memory p) by (rewrite Hr; reflexivity).
  unfold is_size_t in Hsz. lia.
Qed.

(** X18 at the demonstration pool: after blocks of 48 and of 16 bytes, the
    second one is given [SIZE_MAX - 32] bytes; the head drops to 16, and
    the next block of 16 bytes lies inside the first block. *)
Lemma X18_reallocate_misses_wrap_witness :
  let b1 := MHD_pool_allocate demo_pool 48 false in
  let b2 := MHD_pool_allocate (snd b1) 16 false in
  let p := snd b2 in
  let r := MHD_pool_reallocate p (fst b2) 16 (SIZE_MAX - 32) in
  active p /\ reallocate_asserts p (fst b2) 16 /\
  pos p = ROUND_TO_ALIGN (size_t (size_t (fst b2 - memory p) + 16)) /\
  SIZE_MAX - 32 + 2 * ALIGN_SIZE <= SIZE_MAX /\
  SIZE_MAX < fst b2 - memory p + (SIZE_MAX - 32) + (ALIGN_SIZE - 1) /\
  fst b1 = 4096 /\ fst b2 = 4096 + 48 /\
  fst r = fst b2 /\ pos (snd r) = 16 /\
  fst b1 <= fst (MHD_pool_allocate (snd r) 16 false) < fst b1 + 48.
Proof.
  cbv zeta.
  set (b1 := MHD_pool_allocate demo_pool 48 false).
  set (b2 := MHD_pool_allocate (snd b1) 16 false).
  set (p := snd b2).
  assert (H1 : active p) by closed_arith.
  assert (H2 : reallocate_asserts p (fst b2) 16) by closed_asserts.
  assert (H3 : is_size_t 16) by (vm_compute; split; discriminate).
  assert (H4 : is_size_t (SIZE_MAX - 32)) by (vm_compute; split; discriminate).
  assert (H5 : 16 <> 0) by discriminate.
  assert (H6 : pos p
               = ROUND_TO_ALIGN (size_t (size_t (fst b2 - memory p) + 16)))
    by reflexivity.
  assert (H7 : SIZE_MAX - 32 + 2 * ALIGN_SIZE <= SIZE_MAX)
    by (vm_compute; discriminate).
  assert (H8 : SIZE_MAX < fst b2 - memory p + (SIZE_MAX - 32)
                          + (ALIGN_SIZE - 1)) by reflexivity.
  assert (H9 : fst b1 = 4096) by reflexivity.
  assert (H10 : fst b2 = 4096 + 48) by reflexivity.
  destruct (X18_reallocate_misses_wrap p (fst b2) 16 (SIZE_MAX - 32) 16
              H1 H2 H3 H4 H5 H6 H7 H8)
    as (_ & R1 & _ & _ & _ & R2 & _ & _ & R3).
  assert (R4 : fst b1 <= fst (MHD_pool_allocate
                                (snd (MHD_pool_reallocate p (fst b2) 16
                                        (SIZE_MAX - 32))) 16 false)
               < fst b1 + 48).
  { rewrite H9. change 4096 with (memory p) at 1.
    change (4096 + 48) with (fst b2).
    apply R3. vm_compute. discriminate. }
  exact (conj H1 (conj H2 (conj H6 (conj H7 (conj H8 (conj H9 (conj H10
           (conj R1 (conj R2 R4))))))))).
Defined.

(** * Basic authentication *)

(** ** Lists of bytes as buffers *)

(** Storing over a stretch in the middle of a buffer. *)
Lemma store_middle (l1 old new l2 : list byte) :
  length old = length new ->
  store 0 (l1 ++ old ++ l2) (Z.of_nat (length l1)) new = l1 ++ new ++ l2.
Proof.
  intros Hlen. apply list_eq. intros i. unfold store.
  rewrite list_lookup_imap. cbv zeta.
  destruct (decide (i < length l1)%nat) as [H1|H1].
  - rewrite !lookup_app_l by assumption.
    assert (Hw : within (Z.of_nat (length l1)) (Z.of_nat (length new))
                   (0 + Z.of_nat i) = false) by (apply within_false; lia).
    rewrite Hw. destruct (l1 !! i); reflexivity.
  - rewrite (lookup_app_r l1 (old ++ l2)), (lookup_app_r l1 (new ++ l2))
      by lia.
    destruct (decide (i - length l1 < length new)%nat) as [H2|H2].
    + rewrite (lookup_app_l old), (lookup_app_l new) by lia.
      assert (Hw : within (Z.of_nat (length l1)) (Z.of_nat (length new))
                     (0 + Z.of_nat i) = true) by (apply within_true; lia).
      rewrite Hw.
      replace (Z.to_nat (0 + Z.of_nat i - Z.of_nat (length l1)))
        with (i - length l1)%nat by lia.
      destruct (lookup_lt_is_Some_2 old (i - length l1)%nat) as [b ->];
        [lia|].
      destruct (lookup_lt_is_Some_2 new (i - length l1)%nat) as [b' ->];
        [lia|].
      reflexivity.
    + rewrite (lookup_app_r old), (lookup_app_r new) by lia.
      assert (Hw : within (Z.of_nat (length l1)) (Z.of_nat (length new))
                     (0 + Z.of_nat i) = false) by (apply within_false; lia).
      rewrite Hw, Hlen. destruct (l2 !! _); reflexivity.
Qed.

Lemma store_front (old new l2 : list byte) :
  length old = length new -> store 0 (old ++ l2) 0 new = new ++ l2.
Proof. intros H. apply (store_middle [] old new l2 H). Qed.

(** A list of length [n + 1] ends with one element. *)
Lemma split_last_byte (l : list byte) (n : nat) :
  length l = S n -> exists l' b, l = l' ++ [b] /\ length l' = n.
Proof.
  intros H. exists (take n l).
  destruct (lookup_lt_is_Some_2 l n) as [b Hb]; [lia|].
  exists b. split; [|rewrite length_take; lia].
  rewrite <- (take_drop n l) at 1. f_equal.
  apply list_eq. intros [|i].
  - rewrite lookup_drop, Nat.add_0_r. exact Hb.
  - rewrite lookup_drop. simpl. apply lookup_ge_None_2. lia.
Qed.

Lemma find_byte_first c (u w : list byte) :
  Forall (fun b : byte => b <> c) u -> find_byte c (u ++ c :: w) = Some (length u).
Proof.
  induction 1 as [|b u Hb Hu IH]; simpl.
  - rewrite Z.eqb_refl. reflexivity.
  - destruct (Z.eqb_spec b c); [contradiction|]. rewrite IH. reflexivity.
Qed.

Lemma find_byte_absent c (s : list byte) :
  Forall (fun b : byte => b <> c) s -> find_byte c s = None.
Proof.
  induction 1 as [|b s Hb Hs IH]; simpl; [reflexivity|].
  destruct (Z.eqb_spec b c); [contradiction|]. rewrite IH. reflexivity.
Qed.

(** Every buffer either has no byte [c] or splits at the first one. *)
Lemma find_byte_cases c (s : list byte) :
  Forall (fun b : byte => b <> c) s \/
  exists u w, s = u ++ c :: w /\ Forall (fun b : byte => b <> c) u.
Proof.
  induction s as [|b s IH].
  - left. constructor.
  - destruct (Z.eq_dec b c) as [->|Hb].
    + right. exists [], s. split; [reflexivity|constructor].
    + destruct IH as [IH|(u & w & -> & Hu)].
      * left. constructor; assumption.
      * right. exists (b :: u), w. split; [reflexivity|].
        constructor; assumption.
Qed.

Lemma memchr_first c (u w : list byte) :
  Forall (fun b : byte => b <> c) u ->
  memchr (u ++ c :: w) c (Z.of_nat (length (u ++ c :: w)))
  = Some (Z.of_nat (length u)).
Proof.
  intros Hu. unfold memchr. rewrite Nat2Z.id, firstn_all.
  rewrite (find_byte_first c u w Hu). reflexivity.
Qed.

Lemma memchr_absent c (s : list byte) :
  Forall (fun b : byte => b <> c) s -> memchr s c (Z.of_nat (length s)) = None.
Proof.
  intros Hs. unfold memchr. rewrite Nat2Z.id, firstn_all.
  rewrite (find_byte_absent c s Hs). reflexivity.
Qed.

Lemma c_string_stops (s rest : list byte) :
  Forall (fun b : byte => b <> 0) s -> c_string (s ++ 0 :: rest) = s.
Proof.
  induction 1 as [|b s Hb Hs IH]; simpl; [reflexivity|].
  destruct (Z.eqb_spec b 0); [contradiction|]. rewrite IH. reflexivity.
Qed.

(** ** The two functions that read the credentials *)

(** Rewriting with an equation between buffers, whether its lists are
    written as lists of [byte] or of [Z]. *)
Ltac rewrite_bytes H :=
  let E := fresh "E" in
  pose proof H as E; unfold byte in E |- *; rewrite E; clear E.

Lemma bauth3_from_token x connection :
  MHD_basic_auth_get_username_password3 x connection =
  match decoded_token x connection with
  | None => (None, 0%nat)
  | Some decoded =>
      let decoded_len := Z.of_nat (length decoded) in
      if 0 =? decoded_len then (None, 1%nat)
      else
        let colon := memchr decoded 58 decoded_len in
        let username_len :=
          match colon with
          | Some c => c
          | None => decoded_len
          end in
        let password_pos := size_t (username_len + 1) in
        let password_len := size_t (decoded_len - password_pos) in
        match malloc x (size_t (size_t (sizeof_MHD_BasicAuthInfo
                                        + decoded_len) + 1)) with
        | None => (None, 1%nat)
        | Some ret =>
            let t0 := drop (Z.to_nat sizeof_MHD_BasicAuthInfo) ret in
            let t1 := store 0 t0 0 decoded in
            let t2 := store 0 t1 username_len [0] in
            match colon with
            | Some _ =>
                let t3 := store 0 t2 (password_pos + password_len) [0] in
                (Some (mkBasicAuthInfo t3 0 username_len
                         (Some password_pos) password_len), 1%nat)
            | None =>
                (Some (mkBasicAuthInfo t2 0 username_len None 0), 1%nat)
            end
        end
  end.
Proof.
  unfold MHD_basic_auth_get_username_password3, decoded_token.
  destruct (get_rq_bauth_params x connection) as [params|]; [|reflexivity].
  destruct (token68_str params) as [str|]; [|reflexivity].
  destruct (0 =? token68_len params); [reflexivity|].
  destruct (BASE64Decode x str (token68_len params)); reflexivity.
Qed.

Lemma bauth_from_token x connection want_password :
  MHD_basic_auth_get_username_password x connection want_password =
  match decoded_token x connection with
  | None => mkUserPassword None None 0
  | Some decode =>
      let decode_len := Z.of_nat (length decode) in
      if 0 =? decode_len then mkUserPassword None None 1
      else
        match memchr decode 58 decode_len with
        | Some user_len =>
            let user := store 0 decode user_len [0] in
            if negb want_password
            then mkUserPassword (Some user) None 0
            else
              let password_len :=
                size_t (size_t (decode_len - user_len) - 1) in
              match malloc x (size_t (password_len + 1)) with
              | Some blk =>
                  let b1 :=
                    if negb (0 =? password_len)
                    then store 0 blk 0
                           (take (Z.to_nat password_len)
                              (drop (Z.to_nat (user_len + 1)) user))
                    else blk in
                  let b2 := store 0 b1 password_len [0] in
                  mkUserPassword (Some user) (Some (Some b2)) 0
              | None => mkUserPassword None (Some None) 1
              end
        | None => mkUserPassword None None 1
        end
  end.
Proof.
  unfold MHD_basic_auth_get_username_password, decoded_token.
  destruct (get_rq_bauth_params x connection) as [params|]; [|reflexivity].
  destruct (token68_str params) as [str|]; [|reflexivity].
  destruct (0 =? token68_len params); [reflexivity|].
  destruct (BASE64Decode x str (token68_len params)); reflexivity.
Qed.

(** X13: how [MHD_basic_auth_get_username_password3] splits the decoded
    credentials.  When the token decodes to a non-empty block and the
    result can be allocated, the text behind the returned structure is the
    user name, a zero byte, the password and a zero byte, where the split
    is at the first colon: the user name has no colon, the password may
    have some, and both may be empty.  Without a colon, the text is the
    whole block and a zero byte, and [password] is null with length 0. *)
Theorem X13_bauth3_splits_at_first_colon x connection decoded ret :
  decoded_token x connection = Some decoded -> decoded <> [] ->
  sizeof_MHD_BasicAuthInfo + Z.of_nat (length decoded) + 1 <= SIZE_MAX ->
  malloc x (sizeof_MHD_BasicAuthInfo + Z.of_nat (length decoded) + 1)
  = Some ret ->
  Z.of_nat (length ret)
  = sizeof_MHD_BasicAuthInfo + Z.of_nat (length decoded) + 1 ->
  (forall u w : list byte,
     decoded = u ++ 58 :: w -> Forall (fun b : byte => b <> 58) u ->
     MHD_basic_auth_get_username_password3 x connection
     = (Some (mkBasicAuthInfo (u ++ 0 :: w ++ [0]) 0 (Z.of_nat (length u))
                (Some (Z.of_nat (length u) + 1)) (Z.of_nat (length w))),
        1%nat)) /\
  (Forall (fun b : byte => b <> 58) decoded ->
     MHD_basic_auth_get_username_password3 x connection
     = (Some (mkBasicAuthInfo (decoded ++ [0]) 0 (Z.of_nat (length decoded))
                None 0), 1%nat)).
Proof.
  intros Htok Hne Hfit Hmalloc Hlen.
  assert (Hpos : 0 < Z.of_nat (length decoded)).
  { destruct decoded; [contradiction|]. simpl. lia. }
  assert (Hsz : size_t (size_t (sizeof_MHD_BasicAuthInfo
                                + Z.of_nat (length decoded)) + 1)
                = sizeof_MHD_BasicAuthInfo + Z.of_nat (length decoded) + 1).
  { unfold sizeof_MHD_BasicAuthInfo, sizeof_voidp in *. clear Hmalloc. arith. }
  assert (Ht0 : exists t j, drop (Z.to_nat sizeof_MHD_BasicAuthInfo) ret
                            = t ++ [j] /\ length t = length decoded).
  { apply split_last_byte. rewrite length_drop.
    unfold sizeof_MHD_BasicAuthInfo, sizeof_voidp in *. lia. }
  destruct Ht0 as (t & j & Ht0 & Htlen).
  rewrite bauth3_from_token, Htok. cbv zeta.
  destruct (Z.eqb_spec 0 (Z.of_nat (length decoded))) as [E|_]; [lia|].
  rewrite Hsz, Hmalloc, Ht0, (store_front t decoded [j] Htlen).
  split.
  - intros u w -> Hu.
    unfold byte in *. rewrite_bytes (memchr_first 58 u w Hu).
    rewrite length_app in *. simpl length in *.
    assert (Hp : size_t (Z.of_nat (length u) + 1) = Z.of_nat (length u) + 1).
    { apply size_t_small. unfold is_size_t.
      unfold sizeof_MHD_BasicAuthInfo, sizeof_voidp in *. lia. }
    assert (Hl : size_t (Z.of_nat (length u + S (length w))
                         - (Z.of_nat (length u) + 1))
                 = Z.of_nat (length w)).
    { rewrite size_t_small; [lia|]. unfold is_size_t.
      unfold sizeof_MHD_BasicAuthInfo, sizeof_voidp in *. lia. }
    rewrite Hp, Hl.
    replace ((u ++ 58 :: w) ++ [j]) with (u ++ [58] ++ (w ++ [j]))
      by (rewrite <- !app_assoc; reflexivity).
    rewrite_bytes (store_middle u [58] [0] (w ++ [j]) eq_refl).
    replace (u ++ [0] ++ w ++ [j]) with ((u ++ 0 :: w) ++ [j] ++ [])
      by (rewrite <- !app_assoc; reflexivity).
    replace (Z.of_nat (length u) + 1 + Z.of_nat (length w))
      with (Z.of_nat (length (u ++ 0 :: w)))
      by (rewrite length_app; simpl; lia).
    rewrite_bytes (store_middle (u ++ 0 :: w) [j] [0] [] eq_refl).
    rewrite <- !app_assoc. reflexivity.
  - intros Hno.
    unfold byte in *. rewrite_bytes (memchr_absent 58 decoded Hno).
    replace (decoded ++ [j]) with (decoded ++ [j] ++ []) by reflexivity.
    rewrite_bytes (store_middle decoded [j] [0] [] eq_refl). reflexivity.
Qed.

(** X13 on the demonstration externals: the block u:p gives u and p. *)
Lemma X13_bauth3_splits_at_first_colon_witness :
  decoded_token demo_externs 7 = Some (bytes_of_string "u:p") /\
  MHD_basic_auth_get_username_password3 demo_externs 7
  = (Some (mkBasicAuthInfo (bytes_of_string "u" ++ 0 :: bytes_of_string "p"
                            ++ [0]) 0 1 (Some 2) 1), 1%nat).
Proof.
  assert (H1 : decoded_token demo_externs 7 = Some (bytes_of_string "u:p"))
    by reflexivity.
  assert (H2 : bytes_of_string "u:p" <> []) by discriminate.
  assert (H3 : sizeof_MHD_BasicAuthInfo
               + Z.of_nat (length (bytes_of_string "u:p")) + 1 <= SIZE_MAX)
    by (vm_compute; discriminate).
  assert (H4 : malloc demo_externs
                 (sizeof_MHD_BasicAuthInfo
                  + Z.of_nat (length (bytes_of_string "u:p")) + 1)
               = Some (replicate 36 0)) by reflexivity.
  assert (H5 : Z.of_nat (length (replicate 36 (0 : byte)))
               = sizeof_MHD_BasicAuthInfo
                 + Z.of_nat (length (bytes_of_string "u:p")) + 1)
    by reflexivity.
  destruct (X13_bauth3_splits_at_first_colon demo_externs 7 _ _
              H1 H2 H3 H4 H5) as (R & _).
  assert (H6 : Forall (fun b : byte => b <> 58) (bytes_of_string "u")).
  { repeat constructor. discriminate. }
  exact (conj H1 (R (bytes_of_string "u") (bytes_of_string "p") eq_refl H6)).
Defined.

(** X14: when [MHD_basic_auth_get_username_password3] returns null, and
    what becomes of the decoded block.  The result is null exactly when no
    token is decoded (no Basic header, a null or empty token, a decoding
    failure), when the decoded block is empty, or when the result cannot
    be allocated.  On every path the block that [BASE64Decode] returned is
    freed exactly once, and nothing is freed when it returned null. *)
Theorem X14_bauth3_null_and_free x connection :
  let r := MHD_basic_auth_get_username_password3 x connection in
  (fst r = None <->
   match decoded_token x connection with
   | None => True
   | Some decoded =>
       decoded = [] \/
       malloc x (size_t (size_t (sizeof_MHD_BasicAuthInfo
                                 + Z.of_nat (length decoded)) + 1)) = None
   end) /\
  snd r = match decoded_token x connection with
          | Some _ => 1%nat
          | None => 0%nat
          end.
Proof.
  cbv zeta. rewrite bauth3_from_token.
  destruct (decoded_token x connection) as [decoded|]; [|tauto].
  cbv zeta.
  destruct (Z.eqb_spec 0 (Z.of_nat (length decoded))) as [E|E].
  - destruct decoded; [|simpl in E; lia]. simpl. tauto.
  - assert (Hne : decoded <> []) by (intros ->; apply E; reflexivity).
    destruct (malloc x _) as [ret|]; [|simpl; tauto].
    destruct (memchr decoded 58 _); simpl;
      (split; [|reflexivity]); split; intros H;
      try discriminate; destruct H as [H|H]; [contradiction|discriminate| |];
      try contradiction; discriminate.
Qed.

(** X15: how the deprecated [MHD_basic_auth_get_username_password] splits
    the decoded credentials.  For a non-empty decoded block without colon
    it returns null, frees the block and does not assign [*password].
    With a first colon, it returns the block itself with the colon
    replaced by a zero byte; when a password is asked for, [*password] is
    a new block holding the bytes after the colon and a zero byte, or, if
    that block cannot be allocated, [*password] is null, the decoded block
    is freed and the result is null. *)
Theorem X15_bauth_splits_at_first_colon x connection decoded :
  decoded_token x connection = Some decoded -> decoded <> [] ->
  Z.of_nat (length decoded) + 1 <= SIZE_MAX ->
  (Forall (fun b : byte => b <> 58) decoded ->
   forall want,
     MHD_basic_auth_get_username_password x connection want
     = mkUserPassword None None 1) /\
  (forall u w : list byte,
     decoded = u ++ 58 :: w -> Forall (fun b : byte => b <> 58) u ->
     MHD_basic_auth_get_username_password x connection false
     = mkUserPassword (Some (u ++ 0 :: w)) None 0 /\
     (malloc x (Z.of_nat (length w) + 1) = None ->
      MHD_basic_auth_get_username_password x connection true
      = mkUserPassword None (Some None) 1) /\
     (forall blk, malloc x (Z.of_nat (length w) + 1) = Some blk ->
                  Z.of_nat (length blk) = Z.of_nat (length w) + 1 ->
      MHD_basic_auth_get_username_password x connection true
      = mkUserPassword (Some (u ++ 0 :: w)) (Some (Some (w ++ [0]))) 0)).
Proof.
  intros Htok Hne Hfit.
  assert (Hpos : 0 < Z.of_nat (length decoded)).
  { destruct decoded; [contradiction|]. simpl. lia. }
  split.
  - intros Hno want. rewrite bauth_from_token, Htok. cbv zeta.
    destruct (Z.eqb_spec 0 (Z.of_nat (length decoded))) as [E|_]; [lia|].
    unfold byte in *. rewrite_bytes (memchr_absent 58 decoded Hno).
    reflexivity.
  - intros u w -> Hu.
    assert (Hcommon : forall want,
      MHD_basic_auth_get_username_password x connection want
      = if negb want then mkUserPassword (Some (u ++ 0 :: w)) None 0
        else match malloc x (Z.of_nat (length w) + 1) with
             | Some blk =>
                 mkUserPassword (Some (u ++ 0 :: w))
                   (Some (Some (store 0
                                  (if negb (0 =? Z.of_nat (length w))
                                   then store 0 blk 0 w else blk)
                                  (Z.of_nat (length w)) [0]))) 0
             | None => mkUserPassword None (Some None) 1
             end).
    { intros want. rewrite bauth_from_token, Htok. cbv zeta.
      destruct (Z.eqb_spec 0 (Z.of_nat (length (u ++ 58 :: w)))) as [E|_];
        [lia|].
      unfold byte in *. rewrite_bytes (memchr_first 58 u w Hu).
      replace (u ++ 58 :: w) with (u ++ [58] ++ w) by reflexivity.
      rewrite_bytes (store_middle u [58] [0] w eq_refl).
      rewrite length_app in *. simpl length in *.
      assert (Hl : size_t (size_t (Z.of_nat (length u + S (length w))
                                   - Z.of_nat (length u)) - 1)
                   = Z.of_nat (length w)).
      { rewrite (size_t_small (Z.of_nat (length u + S (length w))
                               - Z.of_nat (length u)))
          by (unfold is_size_t; lia).
        rewrite size_t_small by (unfold is_size_t; lia). lia. }
      rewrite Hl.
      rewrite (size_t_small (Z.of_nat (length w) + 1))
        by (unfold is_size_t; lia).
      replace (take (Z.to_nat (Z.of_nat (length w)))
                 (drop (Z.to_nat (Z.of_nat (length u) + 1))
                    (u ++ [0] ++ w))) with w; [reflexivity|].
      replace (Z.to_nat (Z.of_nat (length u) + 1)) with (length (u ++ [0]))
        by (rewrite length_app; simpl; lia).
      rewrite (app_assoc u [0] w), drop_app_length, Nat2Z.id, firstn_all.
      reflexivity. }
    split; [apply (Hcommon false)|]. split.
    + intros Hnull. rewrite (Hcommon true), Hnull. reflexivity.
    + intros blk Hblk Hlen. rewrite (Hcommon true), Hblk. cbn [negb].
      destruct (split_last_byte blk (length w)) as (t & j & -> & Htlen);
        [lia|].
      assert (Hb1 : (if negb (0 =? Z.of_nat (length w))
                     then store 0 (t ++ [j]) 0 w else t ++ [j])
                    = w ++ [j] ++ []).
      { destruct (Z.eqb_spec 0 (Z.of_nat (length w))) as [E|_]; cbn [negb].
        - destruct w; [|simpl in E; lia]. destruct t; [|discriminate].
          reflexivity.
        - rewrite_bytes (store_front t w [j] Htlen). reflexivity. }
      unfold byte in *. rewrite Hb1.
      rewrite_bytes (store_middle w [j] [0] [] eq_refl). reflexivity.
Qed.

(** X15 on the demonstration externals: the block u:p again. *)
Lemma X15_bauth_splits_at_first_colon_witness :
  decoded_token demo_externs 7 = Some (bytes_of_string "u:p") /\
  MHD_basic_auth_get_username_password demo_externs 7 true
  = mkUserPassword (Some (bytes_of_string "u" ++ 0 :: bytes_of_string "p"))
      (Some (Some (bytes_of_string "p" ++ [0]))) 0.
Proof.
  assert (H1 : decoded_token demo_externs 7 = Some (bytes_of_string "u:p"))
    by reflexivity.
  assert (H2 : bytes_of_string "u:p" <> []) by discriminate.
  assert (H3 : Z.of_nat (length (bytes_of_string "u:p")) + 1 <= SIZE_MAX)
    by (vm_compute; discriminate).
  destruct (X15_bauth_splits_at_first_colon demo_externs 7 _ H1 H2 H3)
    as (_ & R).
  assert (H4 : Forall (fun b : byte => b <> 58) (bytes_of_string "u")).
  { repeat constructor. discriminate. }
  destruct (R (bytes_of_string "u") (bytes_of_string "p") eq_refl H4)
    as (_ & _ & R').
  exact (conj H1 (R' (replicate 2 0) eq_refl eq_refl)).
Defined.

(** X16: what the deprecated function does with its blocks.  Whatever the
    request and the externals: the block that [BASE64Decode] returned is
    either handed to the caller as the user name or freed exactly once,
    never both; [*password] is assigned only when a password is asked for
    and a colon was found; and whenever a user name is returned to a
    caller that asked for the password, [*password] is not null. *)
Theorem X16_bauth_blocks x connection want :
  let r := MHD_basic_auth_get_username_password x connection want in
  (decode_frees r + match user r with Some _ => 1 | None => 0 end
   = match decoded_token x connection with Some _ => 1 | None => 0 end)%nat
  /\
  (want = false -> stored r = None) /\
  (stored r <> None ->
   exists decoded u w,
     decoded_token x connection = Some decoded /\ decoded = u ++ 58 :: w) /\
  (user r <> None -> want = true -> exists b, stored r = Some (Some b)).
Proof.
  cbv zeta. rewrite bauth_from_token.
  destruct (decoded_token x connection) as [decoded|].
  2:{ simpl. repeat split; try reflexivity; intros H; contradiction. }
  cbv zeta.
  destruct (0 =? Z.of_nat (length decoded)).
  { simpl. repeat split; try reflexivity; intros H; contradiction. }
  unfold memchr.
  destruct (find_byte 58 (take (Z.to_nat (Z.of_nat (length decoded))) decoded))
    as [i|] eqn:Hfind; cbn [fmap option_fmap option_map].
  2:{ simpl. repeat split; try reflexivity; intros H; contradiction. }
  assert (Hsplit : exists u w, decoded = u ++ 58 :: w).
  { rewrite Nat2Z.id, firstn_all in Hfind.
    destruct (find_byte_cases 58 decoded) as [Hno|(u & w & Hd & _)].
    - rewrite (find_byte_absent 58 decoded Hno) in Hfind. discriminate.
    - exists u, w. exact Hd. }
  destruct Hsplit as (u & w & Hd).
  destruct want; cbn [negb].
  - destruct (malloc x _) as [blk|]; simpl.
    + repeat split; try discriminate.
      * intros _. exists decoded, u, w. auto.
      * intros _ _. eexists. reflexivity.
    + repeat split; try discriminate.
      * intros _. exists decoded, u, w. auto.
      * intros H. contradiction.
  - simpl. repeat split; try discriminate; intros H; try contradiction;
      try discriminate.
Qed.

(** ** The response that asks for credentials *)

Lemma split_at (l : list byte) (k : nat) :
  (k <= length l)%nat -> exists l1 l2, l = l1 ++ l2 /\ length l1 = k.
Proof.
  intros H. exists (take k l), (drop k l).
  split; [symmetry; apply take_drop|]. rewrite length_take. lia.
Qed.

Lemma prefix_no_zero : Forall (fun b : byte => b <> 0) prefix.
Proof. repeat constructor; discriminate. Qed.

Lemma suff_charset_no_zero : Forall (fun b : byte => b <> 0) suff_charset.
Proof. repeat constructor; discriminate. Qed.

(** X17: the header [MHD_queue_basic_auth_fail_response3] builds.  For a
    non-null response and a zero-terminated realm string [r], short enough
    for the length of the header not to wrap, when quoting [r] into a
    buffer of twice its length gives [quoted], within that length and
    without a zero byte: if the header buffer cannot be allocated, the
    result is [MHD_NO] and nothing is called; otherwise the value handed to
    [MHD_add_response_header] for the WWW-Authenticate header is exactly
    [prefix], then [quoted], then a double quote or, with [prefer_utf8],
    [suff_charset], the response is queued, with the status
    [MHD_HTTP_UNAUTHORIZED], exactly when adding the header did not fail,
    and then the result is that of [MHD_queue_response]; when adding the
    header failed the result is [MHD_NO].
    [MHD_queue_basic_auth_fail_response] is the case [prefer_utf8 = 0]. *)
Theorem X17_fail_response_header x connection realm r rest prefer_utf8
    response :
  let n := Z.of_nat (length r) in
  let suffix := if 0 =? prefer_utf8 then [34] else suff_charset in
  let h_maxlen :=
    Z.of_nat (length prefix) + 2 * n + Z.of_nat (length suffix) in
  let quoted := MHD_str_quote x r (2 * n) in
  let content := prefix ++ quoted ++ suffix in
  let header := MHD_HTTP_HEADER_WWW_AUTHENTICATE x in
  response <> NULL ->
  realm = r ++ 0 :: rest -> Forall (fun b : byte => b <> 0) r ->
  h_maxlen + 1 <= SIZE_MAX ->
  Z.of_nat (length quoted) <= 2 * n ->
  Forall (fun b : byte => b <> 0) quoted ->
  (forall blk, malloc x (h_maxlen + 1) = Some blk ->
               Z.of_nat (length blk) = h_maxlen + 1) ->
  MHD_queue_basic_auth_fail_response3 x connection realm prefer_utf8 response
  = match malloc x (h_maxlen + 1) with
    | None => (MHD_NO, [])
    | Some _ =>
        match MHD_add_response_header x response header content with
        | MHD_NO =>
            (MHD_NO, [call_add_response_header response header content])
        | MHD_YES =>
            (MHD_queue_response x connection (MHD_HTTP_UNAUTHORIZED x)
               response,
             [call_add_response_header response header content;
              call_queue_response connection (MHD_HTTP_UNAUTHORIZED x)
                response])
        end
    end /\
  (prefer_utf8 = 0 ->
   MHD_queue_basic_auth_fail_response x connection realm response
   = MHD_queue_basic_auth_fail_response3 x connection realm prefer_utf8
       response).
Proof.
  intros n suffix h_maxlen quoted content header
    Hresp Hrealm Hr Hfit Hq Hqz Hblk.
  split; [|intros ->; reflexivity].
  assert (Hsfx : Z.of_nat (length suffix)
                 = if 0 =? prefer_utf8 then 1 else 18).
  { subst suffix. destruct (0 =? prefer_utf8); reflexivity. }
  assert (Hpl : Z.of_nat (length prefix) = 13) by reflexivity.
  assert (Hstrlen : strlen realm = n).
  { unfold strlen. rewrite Hrealm.
    rewrite_bytes (c_string_stops r rest Hr). reflexivity. }
  assert (Htake : take (Z.to_nat n) realm = r).
  { subst n. rewrite Nat2Z.id, Hrealm. apply take_app_length. }
  assert (Hn0 : 0 <= n) by (subst n; lia).
  assert (Hs0 : 0 < Z.of_nat (length suffix) <= 18).
  { rewrite Hsfx. destruct (0 =? prefer_utf8); lia. }
  unfold MHD_queue_basic_auth_fail_response3. cbv zeta.
  destruct (Z.eqb_spec NULL response) as [E|_]; [congruence|].
  rewrite Hstrlen, Htake.
  unfold MHD_STATICSTR_LEN_.
  change (Z.of_nat (length [34])) with 1.
  change (Z.of_nat (length suff_charset)) with 18.
  fold (if 0 =? prefer_utf8 then 1 else 18) in *.
  rewrite <- Hsfx.
  assert (Hmax : size_t (size_t (Z.of_nat (length prefix) + size_t (n * 2))
                         + Z.of_nat (length suffix)) = h_maxlen).
  { subst h_maxlen. unfold SIZE_MAX in Hfit.
    rewrite (size_t_small (n * 2)) by (unfold is_size_t, SIZE_MAX; lia).
    rewrite (size_t_small (_ + n * 2)) by (unfold is_size_t, SIZE_MAX; lia).
    rewrite size_t_small by (unfold is_size_t, SIZE_MAX; lia). lia. }
  rewrite Hmax.
  rewrite (size_t_small (h_maxlen + 1))
    by (unfold is_size_t; subst h_maxlen; lia).
  destruct (malloc x (h_maxlen + 1)) as [blk|] eqn:Hmalloc; [|reflexivity].
  pose proof (Hblk blk eq_refl) as Hlen.
  assert (Hbuf : size_t (size_t (h_maxlen - Z.of_nat (length prefix))
                         - Z.of_nat (length suffix)) = 2 * n).
  { subst h_maxlen. unfold SIZE_MAX in Hfit.
    rewrite (size_t_small (_ - Z.of_nat (length prefix)))
      by (unfold is_size_t, SIZE_MAX; lia).
    rewrite size_t_small by (unfold is_size_t, SIZE_MAX; lia). lia. }
  rewrite Hbuf. fold quoted.
  assert (Hpos : size_t (Z.of_nat (length prefix) + Z.of_nat (length quoted))
                 = Z.of_nat (length (prefix ++ quoted))).
  { rewrite length_app. unfold SIZE_MAX in Hfit.
    rewrite size_t_small by (unfold is_size_t, SIZE_MAX; subst h_maxlen; lia).
    lia. }
  rewrite Hpos.
  (* the block, cut where the three parts are written *)
  destruct (split_at blk (length prefix)) as (b1 & b23 & -> & Hb1);
    [subst h_maxlen; lia|].
  rewrite length_app in Hlen.
  destruct (split_at b23 (length quoted)) as (b2 & b3 & -> & Hb2);
    [subst h_maxlen; lia|].
  rewrite length_app in Hlen.
  assert (Hb3 : Z.of_nat (length b3)
                = 2 * n - Z.of_nat (length quoted)
                  + Z.of_nat (length suffix) + 1)
    by (subst h_maxlen; lia).
  rewrite_bytes (store_front b1 prefix (b2 ++ b3) Hb1).
  rewrite_bytes (store_middle prefix b2 quoted b3 Hb2).
  assert (Hcontent :
    c_string (if 0 =? prefer_utf8
              then store 0 (store 0 (prefix ++ quoted ++ b3)
                              (Z.of_nat (length (prefix ++ quoted))) [34])
                     (size_t (Z.of_nat (length (prefix ++ quoted)) + 1)) [0]
              else store 0 (prefix ++ quoted ++ b3)
                     (Z.of_nat (length (prefix ++ quoted)))
                     (suff_charset ++ [0]))
    = content).
  { assert (Hnz : Forall (fun b : byte => b <> 0) content).
    { subst content suffix. rewrite !Forall_app.
      split; [apply prefix_no_zero|]. split; [exact Hqz|].
      destruct (0 =? prefer_utf8);
        [repeat constructor; discriminate|apply suff_charset_no_zero]. }
    subst content suffix.
    destruct (0 =? prefer_utf8).
    - change (Z.of_nat (length [34])) with 1 in Hb3.
      destruct (split_at b3 1) as (a1 & b4 & -> & Ha1); [lia|].
      rewrite length_app in Hb3.
      destruct (split_at b4 1) as (a2 & b5 & -> & Ha2); [lia|].
      unfold byte in *.
      rewrite_bytes (app_assoc prefix quoted (a1 ++ a2 ++ b5)).
      rewrite_bytes (store_middle (prefix ++ quoted) a1 [34] (a2 ++ b5) Ha1).
      assert (Hp1 : size_t (Z.of_nat (length (prefix ++ quoted)) + 1)
                    = Z.of_nat (length ((prefix ++ quoted) ++ [34]))).
      { rewrite (length_app (prefix ++ quoted) [34]). simpl length.
        rewrite length_app in *. unfold SIZE_MAX in Hfit.
        rewrite size_t_small
          by (unfold is_size_t, SIZE_MAX, byte in *; subst h_maxlen; lia).
        lia. }
      unfold byte in *. rewrite Hp1.
      rewrite_bytes (app_assoc (prefix ++ quoted) [34] (a2 ++ b5)).
      rewrite_bytes (store_middle ((prefix ++ quoted) ++ [34]) a2 [0] b5 Ha2).
      rewrite_bytes (eq_sym (app_assoc prefix quoted [34])).
      rewrite_bytes (c_string_stops (prefix ++ quoted ++ [34]) b5 Hnz
                     : c_string ((prefix ++ quoted ++ [34]) ++ [0] ++ b5) = _).
      reflexivity.
    - change (Z.of_nat (length suff_charset)) with 18 in Hb3.
      destruct (split_at b3 (length (suff_charset ++ [0])))
        as (a1 & b4 & -> & Ha1);
        [change (length (suff_charset ++ [0])) with 19%nat; lia|].
      unfold byte in *.
      rewrite_bytes (app_assoc prefix quoted (a1 ++ b4)).
      rewrite_bytes (store_middle (prefix ++ quoted) a1 (suff_charset ++ [0])
                       b4 Ha1).
      rewrite_bytes (eq_sym (app_assoc suff_charset [0] b4)).
      rewrite_bytes (app_assoc (prefix ++ quoted) suff_charset ([0] ++ b4)).
      rewrite_bytes (eq_sym (app_assoc prefix quoted suff_charset)).
      rewrite_bytes (c_string_stops (prefix ++ quoted ++ suff_charset) b4 Hnz
                     : c_string ((prefix ++ quoted ++ suff_charset)
                                 ++ [0] ++ b4) = _).
      reflexivity. }
  unfold byte in *. rewrite Hcontent. fold header.
  destruct (MHD_add_response_header x response header content); reflexivity.
Qed.

(** X17 on the demonstration externals, for a realm of one letter. *)
Lemma X17_fail_response_header_witness :
  (9 : Z) <> NULL /\
  MHD_queue_basic_auth_fail_response3 demo_externs 7
    (bytes_of_string "r" ++ [0]) 1 9
  = (MHD_YES,
     [call_add_response_header 9 (bytes_of_string "WWW-Authenticate")
        (prefix ++ bytes_of_string "r" ++ suff_charset);
      call_queue_response 7 401 9]).
Proof.
  assert (H1 : (9 : Z) <> NULL) by discriminate.
  assert (H2 : bytes_of_string "r" ++ [0] = bytes_of_string "r" ++ 0 :: [])
    by reflexivity.
  assert (H3 : Forall (fun b : byte => b <> 0) (bytes_of_string "r")).
  { repeat constructor. discriminate. }
  assert (H4 : Z.of_nat (length prefix)
               + 2 * Z.of_nat (length (bytes_of_string "r"))
               + Z.of_nat (length (if 0 =? 1 then [34] else suff_charset)) + 1
               <= SIZE_MAX) by (vm_compute; discriminate).
  assert (H5 : Z.of_nat (length (MHD_str_quote demo_externs
                                   (bytes_of_string "r")
                                   (2 * Z.of_nat (length (bytes_of_string "r")))))
               <= 2 * Z.of_nat (length (bytes_of_string "r")))
    by (vm_compute; discriminate).
  assert (H6 : Forall (fun b : byte => b <> 0)
                 (MHD_str_quote demo_externs (bytes_of_string "r")
                    (2 * Z.of_nat (length (bytes_of_string "r"))))).
  { repeat constructor. discriminate. }
  assert (H7 : forall blk,
             malloc demo_externs
               (Z.of_nat (length prefix)
                + 2 * Z.of_nat (length (bytes_of_string "r"))
                + Z.of_nat (length (if 0 =? 1 then [34] else suff_charset))
                + 1) = Some blk ->
             Z.of_nat (length blk)
             = Z.of_nat (length prefix)
               + 2 * Z.of_nat (length (bytes_of_string "r"))
               + Z.of_nat (length (if 0 =? 1 then [34] else suff_charset))
               + 1).
  { intros blk E. vm_compute in E. injection E as <-. reflexivity. }
  destruct (X17_fail_response_header demo_externs 7
              (bytes_of_string "r" ++ [0]) (bytes_of_string "r") [] 1 9
              H1 H2 H3 H4 H5 H6 H7) as (R & _).
  exact (conj H1 R).
Defined.
